(** * Real-time dubbing extension: audio worklet, content script, voice UI

    A shallow embedding of the JavaScript sources
      - extension/audio-processor.js  (class AudioProcessor),
      - extension/background.js       (class BackgroundService),
      - the content script            (class RTDContentScript),
      - the popup                     (class PopupController),
      - static/js/voice_management.js (the voice and actor forms),
    together with the properties stated about them.

    Numbers.  JavaScript numbers that carry audio samples and levels are
    modelled as exact rationals [Q], with the infinities and NaN added
    where the code can produce them: the rounding performed by
    [Float32Array] stores and by double arithmetic is outside that model.
    [detectVoice], whose answer is decided by rounding, is modelled in
    double arithmetic as well.  The size of the buffer is a number, as in
    the code; indices and lengths are integers. *)

From Stdlib Require Import QArith Qabs ZArith NArith Lia Lqa Ascii String SpecFloat.
From stdpp Require Import base list gmap strings.

Open Scope Z_scope.

(** ** JavaScript values that travel in messages *)

Module Js.

(** The result of a JavaScript division: a finite number, an infinity or
    NaN. *)
Inductive number : Type :=
| Fin (q : Q)
| PosInf
| NegInf
| NaN.

Definition Qltb (x y : Q) : bool := negb (Qle_bool y x).

(** [a / b] on finite operands (the divisor is never the negative zero in
    the code modelled here: it is a length or a sum that passed a test). *)
Definition div (a b : Q) : number :=
  if Qeq_bool b 0 then
    if Qeq_bool a 0 then NaN
    else if Qltb 0 a then PosInf else NegInf
  else Fin (a / b).

(** [i * x] for a finite [i]. *)
Definition mul (i : Q) (x : number) : number :=
  match x with
  | Fin q => Fin (i * q)
  | NaN => NaN
  | PosInf => if Qeq_bool i 0 then NaN else if Qltb 0 i then PosInf else NegInf
  | NegInf => if Qeq_bool i 0 then NaN else if Qltb 0 i then NegInf else PosInf
  end.

(** [x < c] and [x > c] against a finite constant; every comparison with
    NaN is false. *)
Definition ltb (x : number) (c : Q) : bool :=
  match x with
  | Fin q => Qltb q c
  | NegInf => true
  | PosInf | NaN => false
  end.

Definition gtb (x : number) (c : Q) : bool :=
  match x with
  | Fin q => Qltb c q
  | PosInf => true
  | NegInf | NaN => false
  end.

Inductive value : Type :=
| Null
| Str (s : string)
| Num (n : number)
| Arr (a : list Q)        (* an array, typed or not, of finite numbers *)
| Strs (a : list string). (* an array of strings *)

(** [Array.from(v)]; [None] is the TypeError raised for [undefined] and
    [null].  A number has no elements, a string has its characters. *)
Definition arrayFrom (v : option value) : option value :=
  match v with
  | None | Some Null => None
  | Some (Arr a) => Some (Arr a)
  | Some (Strs a) => Some (Strs a)
  | Some (Num _) => Some (Arr [])
  | Some (Str s) => Some (Strs (map (fun c => String c EmptyString) (list_ascii_of_string s)))
  end.

(** The value that JSON.stringify writes for a property: infinities and
    NaN are written as [null]. *)
Definition toJSON (v : value) : value :=
  match v with
  | Num (Fin q) => Num (Fin q)
  | Num _ => Null
  | v => v
  end.

(** Whether a value is truthy. *)
Definition truthy (v : value) : bool :=
  match v with
  | Null => false
  | Str s => negb (String.eqb s "")
  | Num (Fin q) => negb (Qeq_bool q 0)
  | Num NaN => false
  | Num _ => true
  | Arr _ | Strs _ => true
  end.

(** Whether an object has the property [k], and the array it holds
    there (empty when it holds none). *)
Definition has (o : gmap string value) (k : string) : bool :=
  match o !! k with Some _ => true | None => false end.

Definition getArr (o : gmap string value) (k : string) : list Q :=
  match o !! k with Some (Arr a) => a | _ => [] end.


(** [new Float32Array(n)] *)
Definition Float32Array (n : Z) : list Q := replicate (Z.to_nat n) 0%Q.

(** An integer as a number. *)
Definition ofZ (n : Z) : number := Fin (inject_Z n).

(** [Math.min(c, x)] and [Math.max(c, x)] for a finite [c]. *)
Definition min (c : Q) (x : number) : number :=
  match x with
  | Fin q => Fin (if Qltb q c then q else c)
  | PosInf => Fin c
  | NegInf => NegInf
  | NaN => NaN
  end.

Definition max (c : Q) (x : number) : number :=
  match x with
  | Fin q => Fin (if Qltb c q then q else c)
  | PosInf => PosInf
  | NegInf => Fin c
  | NaN => NaN
  end.

(** [c >= x] for a finite [c]. *)
Definition geb (c : Q) (x : number) : bool :=
  match x with
  | Fin q => Qle_bool q c
  | NegInf => true
  | PosInf | NaN => false
  end.

(** The length that [new Float32Array(x)] gives its array: [x] with its
    fraction dropped, and 0 for NaN.  (A negative or an infinite length
    raises a RangeError; the code modelled here never asks for one.) *)
Definition toIndex (x : number) : Z :=
  match x with
  | Fin q => Z.quot (Qnum q) (Z.pos (Qden q))
  | PosInf | NegInf | NaN => 0
  end.

End Js.

(** An object literal: a finite map from property names to values. *)
Abbreviation JsObject := (gmap string Js.value).

(** ** extension/audio-processor.js *)

Module AudioProcessor.

Record t : Type := mk {
  bufferSize : Js.number;
  buffer : list Q;
  bufferIndex : nat;
  sampleRate : Q;
  isProcessing : bool;
  frameCount : nat
}.

(** The two globals of the AudioWorkletGlobalScope that the class reads. *)
Record Globals : Type := {
  g_sampleRate : Q;
  g_currentTime : Q
}.

Definition set_bufferSize (v : Js.number) (this : t) : t :=
  mk v (buffer this) (bufferIndex this) (sampleRate this) (isProcessing this) (frameCount this).
Definition set_buffer (v : list Q) (this : t) : t :=
  mk (bufferSize this) v (bufferIndex this) (sampleRate this) (isProcessing this) (frameCount this).
Definition set_bufferIndex (v : nat) (this : t) : t :=
  mk (bufferSize this) (buffer this) v (sampleRate this) (isProcessing this) (frameCount this).
Definition set_sampleRate (v : Q) (this : t) : t :=
  mk (bufferSize this) (buffer this) (bufferIndex this) v (isProcessing this) (frameCount this).
Definition set_isProcessing (v : bool) (this : t) : t :=
  mk (bufferSize this) (buffer this) (bufferIndex this) (sampleRate this) v (frameCount this).
Definition set_frameCount (v : nat) (this : t) : t :=
  mk (bufferSize this) (buffer this) (bufferIndex this) (sampleRate this) (isProcessing this) v.

Definition constructor : t :=
  {| bufferSize := Js.Fin 2048;
     buffer := Js.Float32Array 2048;
     bufferIndex := 0;
     sampleRate := 44100;
     isProcessing := true;
     frameCount := 0 |}.

(** [event.data] of a message posted to the worklet's port: its [type]
    and the number that [Math.min] makes of its [size], NaN when the
    message has none. *)
Record PortData : Type := {
  type : string;
  size : Js.number
}.

Definition updateBufferSize (newSize : Js.number) (this : t) : t :=
  let this := set_bufferSize (Js.max 1024 (Js.min 8192 newSize)) this in
  let this := set_buffer (Js.Float32Array (Js.toIndex (bufferSize this))) this in
  set_bufferIndex 0 this.

Definition handleMessage (data : PortData) (this : t) : t :=
  if String.eqb (type data) "start" then set_isProcessing true this
  else if String.eqb (type data) "stop" then set_isProcessing false this
  else if String.eqb (type data) "set_buffer_size" then updateBufferSize (size data) this
  else this.

Definition calculateAudioLevel (buffer : list Q) : Js.number :=
  let sum := foldl (fun sum x => (sum + Qabs x)%Q) 0%Q buffer in
  Js.div sum (inject_Z (Z.of_nat (length buffer))).

Definition compress (sample threshold ratio : Q) : Q :=
  let absSample := Qabs sample in
  if Js.Qltb threshold absSample then
    let excess := (absSample - threshold)%Q in
    let compressedExcess := (excess * ratio)%Q in
    let compressedSample := (threshold + compressedExcess)%Q in
    if Qle_bool 0 sample then compressedSample else (- compressedSample)%Q
  else sample.

(** The body of the loop of [preprocessAudio], for one sample. *)
Definition preprocessSample (sample : Q) : Q :=
  let sample := if Js.Qltb (Qabs sample) (1 # 1000) then 0%Q else sample in
  compress sample (7 # 10) (1 # 2).

Definition preprocessAudio (inputBuffer : list Q) : list Q :=
  map preprocessSample inputBuffer.

(** The message handed to [this.port.postMessage]. *)
Definition processBuffer (g : Globals) (this : t) : JsObject :=
  let audioLevel := calculateAudioLevel (buffer this) in
  let processedBuffer := preprocessAudio (buffer this) in
  <["type" := Js.Str "audio_chunk"]>
  (<["audioBuffer" := Js.Arr processedBuffer]>
  (<["sampleRate" := Js.Num (Js.Fin (sampleRate this))]>
  (<["level" := Js.Num audioLevel]>
  (<["timestamp" := Js.Num (Js.Fin (g_currentTime g * 1000))]> ∅)))).

(** One iteration of the [for] loop of [process], after the pass-through
    store: buffer the sample and flush a full buffer. *)
Definition bufferSample (g : Globals) (x : Q) (this : t) : t * list JsObject :=
  if isProcessing this then
    let this := set_buffer (<[bufferIndex this := x]> (buffer this)) this in
    let this := set_bufferIndex (S (bufferIndex this)) this in
    if Js.geb (inject_Z (Z.of_nat (bufferIndex this))) (bufferSize this) then
      (set_bufferIndex 0 this, [processBuffer g this])
    else (this, [])
  else (this, []).

(** The [for] loop of [process], from index [i] on;
    [inputChannel] holds the samples not yet visited. *)
Fixpoint processLoop (g : Globals) (inputChannel : list Q) (i : nat)
    (this : t) (outputChannel : list Q) : t * list Q * list JsObject :=
  match inputChannel with
  | [] => (this, outputChannel, [])
  | x :: rest =>
      let outputChannel := <[i := x]> outputChannel in
      let '(this, posted) := bufferSample g x this in
      let '(this, outputChannel, more) := processLoop g rest (S i) this outputChannel in
      (this, outputChannel, posted ++ more)
  end.

Inductive Completion : Type :=
| Returned (b : bool)
| TypeError.

Record ProcessResult : Type := {
  this' : t;
  outputs' : list (list (list Q));
  posted : list JsObject;
  completion : Completion
}.

(** [process(inputs, outputs, parameters)]; [parameters] is not read.
    [inputs !! 0 = None] is [!input], [input !! 0 = None] is
    [input.length === 0]; reading or writing a property of [undefined]
    raises a TypeError. *)
Definition process (g : Globals) (this : t)
    (inputs outputs : list (list (list Q))) : ProcessResult :=
  match inputs !! 0%nat with
  | None => Build_ProcessResult this outputs [] (Returned true)
  | Some input =>
      match input !! 0%nat with
      | None => Build_ProcessResult this outputs [] (Returned true)
      | Some inputChannel =>
          match outputs !! 0%nat with
          | None => Build_ProcessResult this outputs [] TypeError
          | Some output =>
              let this :=
                if Qeq_bool (sampleRate this) (g_sampleRate g) then this
                else set_sampleRate (g_sampleRate g) this in
              match output !! 0%nat, inputChannel with
              | None, _ :: _ => Build_ProcessResult this outputs [] TypeError
              | None, [] =>
                  Build_ProcessResult (set_frameCount (S (frameCount this)) this)
                    outputs [] (Returned true)
              | Some outputChannel, _ =>
                  let '(this, outputChannel, msgs) :=
                    processLoop g inputChannel 0 this outputChannel in
                  Build_ProcessResult (set_frameCount (S (frameCount this)) this)
                    (<[0%nat := <[0%nat := outputChannel]> output]> outputs)
                    msgs (Returned true)
              end
          end
      end
  end.

(** *** The life of a worklet *)

(** What the audio thread does to the processor: a message arrives on
    the port, or a frame is rendered. *)
Inductive Event : Type :=
| Message (data : PortData)
| Render (g : Globals) (inputs outputs : list (list (list Q))).

Definition isStart (e : Event) : bool :=
  match e with
  | Message data => String.eqb (type data) "start"
  | Render _ _ _ => false
  end.

(** One event: the next state and the messages posted to the main thread. *)
Definition step (e : Event) (this : t) : t * list JsObject :=
  match e with
  | Message data => (handleMessage data this, [])
  | Render g inputs outputs =>
      let r := process g this inputs outputs in (this' r, posted r)
  end.

Fixpoint run (es : list Event) (this : t) : t * list JsObject :=
  match es with
  | [] => (this, [])
  | e :: es =>
      let '(this, msgs) := step e this in
      let '(this, more) := run es this in
      (this, msgs ++ more)
  end.

(** The states the processor goes through from [init] on, those between
    two iterations of the loop of [process] included, when the messages
    it is sent are among the [allowed] ones. *)
Inductive Reachable (allowed : PortData -> Prop) (init : t) : t -> Prop :=
| reach_init : Reachable allowed init init
| reach_message data this :
    allowed data ->
    Reachable allowed init this -> Reachable allowed init (handleMessage data this)
| reach_sampleRate v this :
    Reachable allowed init this -> Reachable allowed init (set_sampleRate v this)
| reach_sample g x this :
    Reachable allowed init this -> Reachable allowed init (fst (bufferSample g x this))
| reach_frameCount v this :
    Reachable allowed init this -> Reachable allowed init (set_frameCount v this).


(** A message whose [size], if it asks for a buffer size, is an integer
    (written as the integer itself, over the denominator 1). *)
Definition integerSize (data : PortData) : Prop :=
  type data = "set_buffer_size" -> exists n : Z, size data = Js.ofZ n.


(** The number of slots of the buffer. *)
Definition slots (this : t) : Z := Z.of_nat (length (buffer this)).

(** [bufferSize] is an integer, the buffer has that many slots,
    [bufferSize] is within its bounds and [bufferIndex] points into the
    buffer. *)
Definition Inv (this : t) : Prop :=
  bufferSize this = Js.ofZ (slots this)
  /\ 1024 <= slots this <= 8192
  /\ Z.of_nat (bufferIndex this) < slots this.


(** The samples accumulated since the buffer was last flushed. *)
Definition pending (this : t) : list Q := take (bufferIndex this) (buffer this).

(** Rendering one mono frame of the given samples. *)
Definition render (samples : list Q) : Event :=
  Render {| g_sampleRate := 48000; g_currentTime := 0 |}
    [[samples]] [[replicate (length samples) 0%Q]].

(** A render quantum of 128 samples: [x], then silence. *)
Definition quantum (x : Q) : Event := render (x :: replicate 127 0%Q).

(** Sixteen render quanta, as many as fill the default buffer once:
    fifteen of silence, then one that starts with the sample [x]. *)
Definition sixteenQuanta (x : Q) : list Event :=
  replicate 15 (quantum 0) ++ [quantum x].


(** The sum of the magnitudes of a buffer. *)
Definition sumAbs (l : list Q) : Q := foldr (fun x s => (Qabs x + s)%Q) 0%Q l.

(** *** Spectral voice detection, over exact rationals *)

(** Computations that log the divisor of every division they perform. *)
Definition Logged (A : Type) : Type := (A * list Q)%type.

Definition ret {A} (a : A) : Logged A := (a, []).

Definition bind {A B} (m : Logged A) (k : A -> Logged B) : Logged B :=
  let '(a, ds) := m in
  let '(b, ds') := k a in
  (b, ds ++ ds').

Definition divide (a b : Q) : Logged Js.number := (Js.div a b, [b]).

Definition result {A} (m : Logged A) : A := fst m.
Definition divisors {A} (m : Logged A) : list Q := snd m.

(** The three accumulators of [detectVoice]. *)
Record Energy : Type := {
  lowFreqEnergy : Q;
  midFreqEnergy : Q;
  highFreqEnergy : Q
}.

(** One iteration of the loop of [detectVoice]. *)
Definition accumulate (binSize : Js.number) (i : nat) (x : Q) (e : Energy) : Energy :=
  let freq := Js.mul (inject_Z (Z.of_nat i)) binSize in
  if Js.ltb freq 300 then
    {| lowFreqEnergy := lowFreqEnergy e + x;
       midFreqEnergy := midFreqEnergy e;
       highFreqEnergy := highFreqEnergy e |}%Q
  else if Js.ltb freq 3000 then
    {| lowFreqEnergy := lowFreqEnergy e;
       midFreqEnergy := midFreqEnergy e + x;
       highFreqEnergy := highFreqEnergy e |}%Q
  else
    {| lowFreqEnergy := lowFreqEnergy e;
       midFreqEnergy := midFreqEnergy e;
       highFreqEnergy := highFreqEnergy e + x |}%Q.

Fixpoint energyLoop (binSize : Js.number) (fftData : list Q) (i : nat)
    (e : Energy) : Energy :=
  match fftData with
  | [] => e
  | x :: rest => energyLoop binSize rest (S i) (accumulate binSize i x e)
  end.

Definition totalEnergy (e : Energy) : Q :=
  (lowFreqEnergy e + midFreqEnergy e + highFreqEnergy e)%Q.

Definition binSizeDivisor (fftData : list Q) : Q :=
  inject_Z (Z.of_nat (length fftData) * 2).

(** The energies [detectVoice] has accumulated when its loop ends. *)
Definition energies (this : t) (fftData : list Q) : Energy :=
  energyLoop (Js.div (sampleRate this) (binSizeDivisor fftData)) fftData 0
    {| lowFreqEnergy := 0; midFreqEnergy := 0; highFreqEnergy := 0 |}.

Definition detectVoice (this : t) (fftData : list Q) : Logged bool :=
  bind (divide (sampleRate this) (binSizeDivisor fftData)) (fun binSize =>
  let e := energyLoop binSize fftData 0
             {| lowFreqEnergy := 0; midFreqEnergy := 0; highFreqEnergy := 0 |} in
  if Qeq_bool (totalEnergy e) 0 then ret false
  else
    bind (divide (midFreqEnergy e) (totalEnergy e)) (fun midFreqRatio =>
    ret (Js.gtb midFreqRatio (3 # 10) && Js.Qltb (1 # 100) (totalEnergy e)))).

Section Spectrum.

(** [simpleFFT] evaluates sines and cosines, which have no exact
    rational value; [analyzeSpectrum] is stated over any such
    transform. *)
Variable simpleFFT : list Q -> list Q.

Definition analyzeSpectrum (this : t) (buffer : list Q) : Logged (bool * list Q) :=
  let fftData := simpleFFT buffer in
  bind (detectVoice this fftData) (fun voiceDetected =>
  ret (voiceDetected, fftData)).

End Spectrum.

End AudioProcessor.

(** ** Numbers as they are: IEEE 754 doubles *)

Module Double.

(** A JavaScript number: a binary64 float, of 53 bits of precision.  The
    operations are those of SpecFloat, rounding to nearest, ties to
    even. *)
Definition number : Type := spec_float.

Definition prec : Z := 53.
Definition emax : Z := 1024.

(** An integer as a number (rounded, beyond 2^53). *)
Definition ofZ (n : Z) : number := binary_normalize prec emax n 0 false.


Definition add (x y : number) : number := SFadd prec emax x y.
Definition mul (x y : number) : number := SFmul prec emax x y.
Definition div (x y : number) : number := SFdiv prec emax x y.

(** [x < y] *)
Definition ltb (x y : number) : bool := SFltb x y.

(** [x === 0], true of both zeros *)
Definition isZero (x : number) : bool := SFeqb x (S754_zero false).

(** The decimal literal that is written [n / d] as a fraction: the double
    nearest to it, which is what the division of the two integers rounds
    to. *)
Definition decimal (n d : Z) : number := div (ofZ n) (ofZ d).

End Double.

(** ** [detectVoice], in doubles

    Whether [detectVoice] reports a voice is decided by comparisons of
    rounded sums and of a rounded quotient with thresholds, so this
    function is modelled in double arithmetic, operation by operation. *)

Module AudioProcessorDouble.
Import Double.

(** The divisor of a division: the integer [fftData.length * 2], which is
    computed exactly, or a number. *)
Inductive Divisor : Type :=
| Count (n : Z)
| Value (x : number).


(** Computations that log the divisor of every division they perform. *)
Definition Logged (A : Type) : Type := (A * list Divisor)%type.

Definition result {A} (m : Logged A) : A := fst m.
Definition divisors {A} (m : Logged A) : list Divisor := snd m.

(** The three accumulators of [detectVoice]. *)
Record Energy : Type := {
  lowFreqEnergy : number;
  midFreqEnergy : number;
  highFreqEnergy : number
}.

(** One iteration of the loop of [detectVoice]. *)
Definition accumulate (binSize : number) (i : nat) (x : number) (e : Energy) : Energy :=
  let freq := mul (ofZ (Z.of_nat i)) binSize in
  if ltb freq (ofZ 300) then
    {| lowFreqEnergy := add (lowFreqEnergy e) x;
       midFreqEnergy := midFreqEnergy e;
       highFreqEnergy := highFreqEnergy e |}
  else if ltb freq (ofZ 3000) then
    {| lowFreqEnergy := lowFreqEnergy e;
       midFreqEnergy := add (midFreqEnergy e) x;
       highFreqEnergy := highFreqEnergy e |}
  else
    {| lowFreqEnergy := lowFreqEnergy e;
       midFreqEnergy := midFreqEnergy e;
       highFreqEnergy := add (highFreqEnergy e) x |}.

Fixpoint energyLoop (binSize : number) (fftData : list number) (i : nat)
    (e : Energy) : Energy :=
  match fftData with
  | [] => e
  | x :: rest => energyLoop binSize rest (S i) (accumulate binSize i x e)
  end.

Definition binSizeDivisor (fftData : list number) : Z :=
  Z.of_nat (length fftData) * 2.

(** The energies [detectVoice] has accumulated when its loop ends. *)
Definition energies (sampleRate : number) (fftData : list number) : Energy :=
  energyLoop (div sampleRate (ofZ (binSizeDivisor fftData))) fftData 0
    {| lowFreqEnergy := ofZ 0; midFreqEnergy := ofZ 0; highFreqEnergy := ofZ 0 |}.

(** [lowFreqEnergy + midFreqEnergy + highFreqEnergy] *)
Definition totalEnergy (e : Energy) : number :=
  add (add (lowFreqEnergy e) (midFreqEnergy e)) (highFreqEnergy e).

(** [detectVoice(fftData)], with [this.sampleRate] as an argument. *)
Definition detectVoice (sampleRate : number) (fftData : list number) : Logged bool :=
  let binSize := div sampleRate (ofZ (binSizeDivisor fftData)) in
  let e := energyLoop binSize fftData 0
             {| lowFreqEnergy := ofZ 0; midFreqEnergy := ofZ 0; highFreqEnergy := ofZ 0 |} in
  let totalEnergy := totalEnergy e in
  if isZero totalEnergy then (false, [Count (binSizeDivisor fftData)])
  else
    let midFreqRatio := div (midFreqEnergy e) totalEnergy in
    (ltb (decimal 3 10) midFreqRatio && ltb (decimal 1 100) totalEnergy,
     [Count (binSizeDivisor fftData); Value totalEnergy]).

End AudioProcessorDouble.

(** ** The content script (class RTDContentScript) *)

Module RTDContentScript.

(** [WebSocket.readyState] *)
Inductive ReadyState : Type := CONNECTING | OPEN | CLOSING | CLOSED.

Definition isOpen (r : ReadyState) : bool :=
  match r with OPEN => true | _ => false end.

(** The fields that [handleAudioData] reads: [this.isActive] and the
    [readyState] of [this.websocket], [None] when [this.websocket] is
    null. *)
Record t : Type := mk {
  isActive : bool;
  websocket : option ReadyState
}.

(** A property as JSON.stringify writes it; it is dropped when its value
    is [undefined]. *)
Definition insertDefined (k : string) (v : option Js.value) (o : JsObject) : JsObject :=
  match v with
  | Some v => <[k := Js.toJSON v]> o
  | None => o
  end.

(** The frames [handleAudioData] hands to [this.websocket.send];
    [now] is [Date.now()].  When [Array.from] raises its TypeError nothing
    is sent. *)
Definition handleAudioData (now : Z) (audioData : JsObject) (this : t) : list JsObject :=
  if negb (isActive this)
     || negb (bool_decide (is_Some (websocket this)))
     || negb (from_option isOpen false (websocket this))
  then []
  else
    match Js.arrayFrom (audioData !! "audioBuffer") with
    | Some data =>
        [ <["type" := Js.Str "audio_chunk"]>
          (<["data" := data]>
          (insertDefined "sampleRate" (audioData !! "sampleRate")
          (<["timestamp" := Js.Num (Js.Fin (inject_Z now))]> ∅))) ]
    | None => []
    end.


Definition isAudioChunk (m : JsObject) : bool :=
  match m !! "type" with
  | Some (Js.Str s) => String.eqb s "audio_chunk"
  | _ => false
  end.

End RTDContentScript.

(** ** static/js/voice_management.js: the create-voice form *)

Module VoiceManagementUI.

(** A JavaScript string: its UTF-16 code units. *)
Definition jsstring : Type := list N.

Definition units (s : string) : jsstring :=
  map N_of_ascii (list_ascii_of_string s).

(** White space and line terminators, the code units that
    [String.prototype.trim] strips. *)
Definition isWhiteSpace (c : N) : bool :=
  ((9 <=? c) && (c <=? 13) || (c =? 32) || (c =? 160) || (c =? 5760)
   || (8192 <=? c) && (c <=? 8202) || (c =? 8232) || (c =? 8233)
   || (c =? 8239) || (c =? 8287) || (c =? 12288) || (c =? 65279))%N.

Fixpoint trimStart (s : jsstring) : jsstring :=
  match s with
  | [] => []
  | c :: rest => if isWhiteSpace c then trimStart rest else s
  end.

Definition trimEnd (s : jsstring) : jsstring := rev (trimStart (rev s)).

Definition trim (s : jsstring) : jsstring := trimEnd (trimStart s).

(** A string is falsy exactly when it is empty. *)
Definition truthy (s : jsstring) : bool :=
  match s with [] => false | _ => true end.

(** [s === ''] *)
Definition isEmptyString (s : jsstring) : bool :=
  match s with [] => true | _ => false end.

Section Form.

(** The [File] objects of the file input. *)
Variable File : Type.

(** The values read from the form's elements, under the names of the
    variables that hold the elements. *)
Record Form : Type := {
  nameInput : jsstring;         (* #voice-name *)
  descriptionInput : jsstring;  (* #voice-description *)
  speakerSelect : jsstring;     (* #speaker-select *)
  actorSelect : jsstring;       (* #actor-select *)
  samplesInput : list File      (* #voice-samples .files *)
}.

Inductive FormValue : Type :=
| Text (s : jsstring)
| Blob (f : File).

(** A [FormData]: its entries in the order they were appended. *)
Definition FormData : Type := list (string * FormValue).

Definition append (k : string) (v : FormValue) (d : FormData) : FormData :=
  d ++ [(k, v)].

Inductive Effect : Type :=
| Alert (message : string)
| Fetch (url method : string) (body : FormData).

Definition appendFiles (files : list File) (d : FormData) : FormData :=
  foldl (fun d f => append "audio_files" (Blob f) d) d files.

Definition buildFormData (f : Form) : FormData :=
  let formData := [] in
  let formData := append "name" (Text (trim (nameInput f))) formData in
  let formData := append "speaker_id" (Text (speakerSelect f)) formData in
  let formData :=
    if truthy (trim (descriptionInput f))
    then append "description" (Text (trim (descriptionInput f))) formData
    else formData in
  let formData :=
    if truthy (actorSelect f)
    then append "actor_id" (Text (actorSelect f)) formData
    else formData in
  appendFiles (samplesInput f) formData.

(** The alerts and requests of [submitCreateVoiceForm]; the updates of
    the progress bar and of the status text are left out. *)
Definition submitCreateVoiceForm (f : Form) : list Effect :=
  if negb (truthy (trim (nameInput f))) then
    [Alert "Please enter a voice name."]
  else if isEmptyString (speakerSelect f) then
    [Alert "Please select a speaker."]
  else if (length (samplesInput f) =? 0)%nat then
    [Alert "Please select at least one audio sample."]
  else
    [Fetch "/api/voice-management/voice-clones" "POST" (buildFormData f)].

Definition isFetch (e : Effect) : bool :=
  match e with Fetch _ _ _ => true | Alert _ => false end.

(** The files a body carries under [audio_files], in order. *)
Fixpoint audioFiles (d : FormData) : list File :=
  match d with
  | [] => []
  | (k, Blob f) :: rest =>
      if String.eqb k "audio_files" then f :: audioFiles rest else audioFiles rest
  | _ :: rest => audioFiles rest
  end.

End Form.

Arguments Text {File} s.
Arguments Blob {File} f.
Arguments Alert {File} message.
Arguments Fetch {File} url method body.
Arguments nameInput {File} f.
Arguments descriptionInput {File} f.
Arguments speakerSelect {File} f.
Arguments actorSelect {File} f.
Arguments samplesInput {File} f.
Arguments append {File} k v d.
Arguments appendFiles {File} files d.
Arguments buildFormData {File} f.
Arguments submitCreateVoiceForm {File} f.
Arguments isFetch {File} e.
Arguments audioFiles {File} d.

End VoiceManagementUI.

(** ** The Speaker Identifier *)

Module SpeakerIdentifier.

(** Modelled from the spec: the embedding of an utterance, a vector of
    fixed dimension (the extraction itself is an external capability). *)
Definition Embedding : Type := list Q.

(** Modelled from the spec: what an utterance resolves to, the id of a
    profile or the synthetic default speaker of an utterance whose
    embedding could not be extracted. *)
Inductive SpeakerId : Type :=
| DefaultSpeaker
| Speaker (n : nat).

(** Modelled from the spec: the SpeakerProfile of the data model, with the
    fields that the resolution reads or writes (the running confidence and
    the sessions observed are not among them). *)
Record SpeakerProfile : Type := {
  speaker_id : nat;
  embedding : Embedding;
  last_seen : Z
}.

(** Modelled from the spec: the profiles known to the identifier and the
    next id to mint. *)
Record Store : Type := {
  profiles : list SpeakerProfile;
  next_id : nat
}.

(** Modelled from the spec: the configuration handed to the identifier. *)
Record Config : Type := {
  threshold : Q;   (* VOICE_SIMILARITY_THRESHOLD *)
  smoothing : Q;   (* weight of the stored embedding in an update *)
  epsilon : Q      (* scores this close to the best are ties *)
}.

(** Modelled from the spec: the default configuration.  The threshold is
    the documented 0.8; the spec leaves the two other values open. *)
Definition default_config : Config :=
  {| threshold := 8 # 10; smoothing := 9 # 10; epsilon := 1 # 1000 |}.

(** Modelled from the spec: the confidence is the similarity clamped to
    [0, 1]. *)
Definition clamp01 (q : Q) : Q :=
  if Js.Qltb q 0 then 0%Q else if Js.Qltb 1 q then 1%Q else q.

(** Modelled from the spec: exponential smoothing of a stored embedding,
    a weighted average of the old and the new one. *)
Fixpoint smooth (a : Q) (old new : Embedding) : Embedding :=
  match old, new with
  | x :: old, y :: new => (a * x + (1 - a) * y)%Q :: smooth a old new
  | _, _ => []
  end.

Section Identifier.

(** Modelled from the spec: the similarity measure (cosine similarity or
    an equivalent) and the configuration are supplied from outside. *)
Variable similarity : Embedding -> Embedding -> Q.
Variable cfg : Config.

(** Modelled from the spec: the similarity of the new embedding to each
    known profile's stored embedding. *)
Definition scored (e : Embedding) (ps : list SpeakerProfile)
  : list (SpeakerProfile * Q) :=
  map (fun p => (p, similarity e (embedding p))) ps.

(** Modelled from the spec: the best score, the highest of [s0] and the
    scores of the list. *)
Fixpoint best_score (s0 : Q) (l : list (SpeakerProfile * Q)) : Q :=
  match l with
  | [] => s0
  | (_, s) :: l => best_score (if Js.Qltb s0 s then s else s0) l
  end.

(** Modelled from the spec: among the candidates, the one most recently
    active (the earliest listed when several were active at the same
    time). *)
Fixpoint most_recent (c0 : SpeakerProfile * Q) (l : list (SpeakerProfile * Q))
  : SpeakerProfile * Q :=
  match l with
  | [] => c0
  | c :: l => most_recent (if last_seen (fst c0) <? last_seen (fst c) then c else c0) l
  end.

(** Modelled from the spec: the similarity of the best match, the
    highest similarity among the known profiles; [None] when none is
    known. *)
Definition best_similarity (e : Embedding) (ps : list SpeakerProfile) : option Q :=
  match scored e ps with
  | [] => None
  | (_, s0) :: l => Some (best_score s0 l)
  end.

(** Modelled from the spec: the matching step of the Speaker Identifier
    (speaker_identification.py is not among the sources).  The profiles
    whose score is within [epsilon] of the best score are ties, broken in
    favour of the most recently active one. *)
Definition best_match (e : Embedding) (ps : list SpeakerProfile)
  : option (SpeakerProfile * Q) :=
  match scored e ps with
  | [] => None
  | (p0, s0) :: l =>
      let top := best_score s0 l in
      match List.filter (fun c => Qle_bool (top - snd c) (epsilon cfg)) ((p0, s0) :: l) with
      | [] => None
      | c0 :: cs => Some (most_recent c0 cs)
      end
  end.

(** Modelled from the spec: the update of the matched profile, its
    embedding smoothed and its last-seen time refreshed. *)
Definition update_profile (now : Z) (e : Embedding) (id : nat)
    (p : SpeakerProfile) : SpeakerProfile :=
  if (speaker_id p =? id)%nat then
    {| speaker_id := speaker_id p;
       embedding := smooth (smoothing cfg) (embedding p) e;
       last_seen := now |}
  else p.

(** Modelled from the spec: a new SpeakerProfile with a freshly minted
    id. *)
Definition create_profile (now : Z) (e : Embedding) (st : Store) : Store :=
  {| profiles := profiles st ++
       [{| speaker_id := next_id st; embedding := e; last_seen := now |}];
     next_id := S (next_id st) |}.

(** Modelled from the spec: the resolution of one utterance
    (speaker_identification.py is not among the sources).  [None] is an
    utterance whose embedding could not be extracted.  When the best
    similarity exceeds the threshold the match is returned, ties broken
    by recency, and its profile updated; otherwise a profile is created.
    The result is the speaker id, the confidence and the store
    afterwards. *)
Definition identify (now : Z) (st : Store) (e : option Embedding)
  : SpeakerId * Q * Store :=
  match e with
  | None => (DefaultSpeaker, 0%Q, st)
  | Some e =>
      match best_similarity e (profiles st), best_match e (profiles st) with
      | Some top, Some (p, s) =>
          if Js.Qltb (threshold cfg) top then
            (Speaker (speaker_id p), clamp01 s,
             {| profiles := map (update_profile now e (speaker_id p)) (profiles st);
                next_id := next_id st |})
          else (Speaker (next_id st), clamp01 top, create_profile now e st)
      | _, _ => (Speaker (next_id st), 0%Q, create_profile now e st)
      end
  end.

End Identifier.

(** Modelled from the spec: the store in which no speaker is known yet. *)
Definition empty_store : Store := {| profiles := []; next_id := 0 |}.

(** *** Cosine similarity on rational vectors *)

(** Modelled from the spec: the dot product of two embeddings. *)
Fixpoint dot (a b : Embedding) : Q :=
  match a, b with
  | x :: a, y :: b => (x * y + dot a b)%Q
  | _, _ => 0%Q
  end.

(** Modelled from the spec: the square root that the norm of an
    embedding needs, on rationals: rounded down to a multiple of
    [1 / Qden q], and exact on the square of a rational. *)
Definition Qsqrt (q : Q) : Q :=
  Z.sqrt (Qnum q * Z.pos (Qden q)) # Qden q.

(** Modelled from the spec: the cosine similarity of two embeddings, their
    dot product over the product of their norms; it is exact for vectors
    whose norms are rational. *)
Definition cosine_similarity (a b : Embedding) : Q :=
  (dot a b / (Qsqrt (dot a a) * Qsqrt (dot b b)))%Q.

End SpeakerIdentifier.

(** ** More of the worklet: the stream it chunks, the spectrum it analyses *)

Module AudioStream.
Import AudioProcessor.

Definition isRender (e : Event) : bool :=
  match e with Render _ _ _ => true | Message _ => false end.


(** The samples that a call of [process] runs its loop over: the first
    channel of the first input, when the first output has a channel to
    write to (without one the call ends in a TypeError before a sample is
    buffered). *)
Definition frameSamples (inputs outputs : list (list (list Q))) : list Q :=
  match inputs !! 0%nat with
  | Some (inputChannel :: _) =>
      match outputs !! 0%nat with
      | Some (_ :: _) => inputChannel
      | _ => []
      end
  | _ => []
  end.

Definition eventSamples (e : Event) : list Q :=
  match e with
  | Render _ inputs outputs => frameSamples inputs outputs
  | Message _ => []
  end.

(** The audio of the chunks among the posted messages, end to end. *)
Definition chunkAudio (msgs : list JsObject) : list Q :=
  flat_map (fun m => Js.getArr m "audioBuffer") msgs.

Section FFT.

(** [Math.cos], [Math.sin], [Math.sqrt] and [Math.PI]: they have no exact
    rational value and are taken as given. *)
Variables (cos sin sqrt : Q -> Q) (PI : Q).

Definition fftSize (buffer : list Q) : Z := Z.min (Z.of_nat (length buffer)) 256.

(** The inner loop of [simpleFFT], from index [n] on; [samples] holds the
    samples not yet visited. *)
Fixpoint binLoop (k size : Q) (samples : list Q) (n : nat) (real imag : Q) : Q * Q :=
  match samples with
  | [] => (real, imag)
  | x :: rest =>
      let angle := ((-2 # 1) * PI * k * inject_Z (Z.of_nat n) / size)%Q in
      binLoop k size rest (S n) (real + x * cos angle)%Q (imag + x * sin angle)%Q
  end.

(** The value that the outer loop computes for bin [k]. *)
Definition bin (buffer : list Q) (k : nat) : Q :=
  let fftSize := fftSize buffer in
  let '(real, imag) :=
    binLoop (inject_Z (Z.of_nat k)) (inject_Z fftSize)
      (take (Z.to_nat fftSize) buffer) 0 0%Q 0%Q in
  sqrt (real * real + imag * imag)%Q.

(** [simpleFFT]: the array has [fftSize / 2] slots, rounded down, and the
    loop runs while [k < fftSize / 2], once more than there are slots when
    [fftSize] is odd. *)
Definition simpleFFT (buffer : list Q) : list Q :=
  let fftSize := fftSize buffer in
  let fftData := Js.Float32Array (fftSize / 2) in
  foldl (fun fftData k => <[k := bin buffer k]> fftData) fftData
    (seq 0 (Z.to_nat ((fftSize + 1) / 2))).

End FFT.

End AudioStream.

(** ** Platform detection: content script, background worker, popup *)

Module Platform.
Import VoiceManagementUI.

(** [s.startsWith(pattern)] and [s.includes(pattern)], on code units. *)
Fixpoint startsWith (s pattern : jsstring) {struct pattern} : bool :=
  match pattern, s with
  | [], _ => true
  | a :: pattern, b :: s => (a =? b)%N && startsWith s pattern
  | _ :: _, [] => false
  end.

Fixpoint includes (s pattern : jsstring) : bool :=
  startsWith s pattern
  || match s with
     | [] => false
     | _ :: rest => includes rest pattern
     end.

(** [RTDContentScript.detectPlatform], as a function of
    [window.location.hostname]: the value given to [this.platform]. *)
Definition detectPlatform (hostname : jsstring) : string :=
  if includes hostname (units "netflix.com") then "netflix"
  else if includes hostname (units "youtube.com") then "youtube"
  else if includes hostname (units "crunchyroll.com") then "crunchyroll"
  else if includes hostname (units "hulu.com") then "hulu"
  else if includes hostname (units "disneyplus.com") then "disneyplus"
  else if includes hostname (units "amazon.com") then "amazon"
  else if includes hostname (units "funimation.com") then "funimation"
  else if includes hostname (units "hbo.com") then "hbo"
  else if includes hostname (units "twitch.tv") then "twitch"
  else "unknown".

(** The display name of each platform key of the content script, for
    comparing it with what the background worker reports. *)
Definition displayNames : list (string * string) :=
  [ ("netflix", "Netflix"); ("youtube", "YouTube"); ("crunchyroll", "Crunchyroll");
    ("hulu", "Hulu"); ("disneyplus", "Disney+"); ("amazon", "Prime Video");
    ("funimation", "Funimation"); ("hbo", "HBO Max"); ("twitch", "Twitch") ].

Definition lookupKey {A} (k : string) (table : list (string * A)) : option A :=
  snd <$> List.find (fun entry => String.eqb (fst entry) k) table.

End Platform.

(** ** extension/background.js *)

Module BackgroundService.
Import VoiceManagementUI Platform.

(** The [platforms] object of [detectPlatform]: its entries in the order
    [Object.entries] lists them, the order they are written in (no key is
    an array index). *)
Definition platforms : list (string * string) :=
  [ ("netflix.com", "Netflix"); ("youtube.com", "YouTube");
    ("crunchyroll.com", "Crunchyroll"); ("hulu.com", "Hulu");
    ("disneyplus.com", "Disney+"); ("amazon.com", "Prime Video");
    ("funimation.com", "Funimation"); ("hbo.com", "HBO Max");
    ("twitch.tv", "Twitch") ].

(** [detectPlatform(url)]; [None] is [null]. *)
Definition detectPlatform (url : jsstring) : option string :=
  snd <$> List.find (fun entry => includes url (units (fst entry))) platforms.

(** A badge: the [text] and [color] read from the configuration chosen;
    [None] is [undefined]. *)
Record Badge : Type := {
  text : option string;
  color : option string
}.

Definition badgeConfig : list (string * Badge) :=
  [ ("ready", {| text := Some ""; color := Some "#4CAF50" |});
    ("active", {| text := Some "ON"; color := Some "#4CAF50" |});
    ("error", {| text := Some "!"; color := Some "#f44336" |});
    ("unsupported", {| text := Some ""; color := Some "#9E9E9E" |}) ].

(** The property names that an object literal inherits from
    [Object.prototype]; what it inherits under them is truthy (functions,
    and the prototype itself) and has neither [text] nor [color]. *)
Definition inheritedKeys : list string :=
  [ "constructor"; "__defineGetter__"; "__defineSetter__"; "hasOwnProperty";
    "__lookupGetter__"; "__lookupSetter__"; "isPrototypeOf";
    "propertyIsEnumerable"; "toString"; "valueOf"; "__proto__";
    "toLocaleString" ].

Definition isInherited (k : string) : bool :=
  existsb (String.eqb k) inheritedKeys.

(** [updateBadge(tabId, status)]: the badge handed to
    [chrome.action.setBadgeText] and [setBadgeBackgroundColor] for the
    tab; [status] is the property key that the status converts to. *)
Definition updateBadge (status : string) : Badge :=
  match lookupKey status badgeConfig with
  | Some config => config
  | None =>
      if isInherited status then {| text := None; color := None |}
      else default {| text := None; color := None |} (lookupKey "unsupported" badgeConfig)
  end.

(** [handleTabUpdate(tabId, changeInfo, tab)]: the status it calls
    [updateBadge] with, if it does; [changeInfo.status] and [tab.url] may
    be undefined. *)
Definition handleTabUpdate (status : option string) (url : option jsstring)
  : option string :=
  match status, url with
  | Some status, Some url =>
      if String.eqb status "complete" && truthy url then
        match detectPlatform url with
        | Some _ => Some "ready"
        | None => Some "unsupported"
        end
      else None
  | _, _ => None
  end.

End BackgroundService.

(** ** The popup (class PopupController) *)

Module PopupController.
Import VoiceManagementUI Platform.

Definition supportedPlatforms : list string :=
  [ "netflix.com"; "youtube.com"; "crunchyroll.com"; "hulu.com";
    "disneyplus.com"; "amazon.com"; "funimation.com"; "hbo.com"; "twitch.tv" ].

Definition isValidStreamingPlatform (url : jsstring) : bool :=
  existsb (fun platform => includes url (units platform)) supportedPlatforms.

(** The active tab as [chrome.tabs.query] reports it; the query may find
    no tab, and a tab may come without its [url]. *)
Record Tab : Type := {
  id : Z;
  url : option jsstring
}.

Inductive Effect : Type :=
| ShowError (message : string)
| SendMessage (tabId : Z) (action : string)
| SaveSettings (isActive : bool)
| UpdateUI (isActive : bool).

(** [toggleDubbing]: the new value of [this.isActive] and what the popup
    does, in order.  [delivered] tells whether [chrome.tabs.sendMessage]
    resolves; [saveSettings] catches its own errors.  Reading [url] of no
    tab, or calling [includes] on no url, raises the TypeError that the
    [catch] block reports. *)
Definition toggleDubbing (tab : option Tab) (delivered : bool) (isActive : bool)
  : bool * list Effect :=
  match tab with
  | Some {| id := tabId; url := Some url |} =>
      if negb (isValidStreamingPlatform url) then
        (isActive,
         [ShowError "This extension only works on supported streaming platforms."])
      else
        let isActive := negb isActive in
        let message :=
          SendMessage tabId (if isActive then "start_dubbing" else "stop_dubbing") in
        if delivered then
          (isActive, [message; SaveSettings isActive; UpdateUI isActive])
        else
          (isActive,
           [message;
            ShowError "Failed to communicate with the page. Please refresh and try again."])
  | _ =>
      (isActive,
       [ShowError "Failed to communicate with the page. Please refresh and try again."])
  end.

End PopupController.

(** ** The content script: the address of the server *)

Module ContentScript.
Import VoiceManagementUI Platform.

(** [s.replace(pattern, replacement)] for a string pattern and a
    replacement without [$]: the first occurrence is replaced. *)
Fixpoint replace (s pattern replacement : jsstring) : jsstring :=
  if startsWith s pattern then replacement ++ drop (length pattern) s
  else
    match s with
    | [] => []
    | c :: rest => c :: replace rest pattern replacement
    end.

(** The [wsUrl] of [connectToServer]; the two ids are drawn at random. *)
Definition wsUrl (serverUrl connectionId sessionId : jsstring) : jsstring :=
  replace serverUrl (units "http") (units "ws")
  ++ units "/ws/" ++ connectionId ++ units "/" ++ sessionId.

End ContentScript.

(** ** The content script, call by call *)

Module RTDContentScriptLife.
Import RTDContentScript (ReadyState, CONNECTING, OPEN, CLOSING, CLOSED, isOpen).

(** [this.settings], and the settings that come with a message. *)
Definition Settings : Type := JsObject.

(** [{ ...a, ...b }] *)
Definition spread (a b : Settings) : Settings := b ∪ a.

(** What is handed to [this.websocket.send], before [JSON.stringify]. *)
Inductive Frame : Type :=
| AudioChunk (m : JsObject)                   (* by handleAudioData *)
| SettingsUpdate (settings : Settings)        (* by updateSettings *)
| Config (settings : Settings) (platform : string).  (* by onopen *)

(** A call of [startDubbing] that has not returned, by the [await] at
    which it is suspended: that of [audioWorklet.addModule] in
    [setupAudioCapture], or that of [connectToServer], with the socket the
    call has created and whether its timeout of 5 s is still set. *)
Inductive Start : Type :=
| AddingModule
| Connecting (socket : nat) (timeout : bool).

(** The script: [isActive], [settings], [platform] and [websocket] are
    its fields, [websocket] as an index into [sockets], the WebSockets
    created so far with their [readyState]; [starts] are the calls of
    [startDubbing] in flight. *)
Record t : Type := mk {
  isActive : bool;
  settings : Settings;
  platform : string;
  websocket : option nat;
  sockets : list ReadyState;
  starts : list Start
}.

Definition set_isActive (v : bool) (this : t) : t :=
  mk v (settings this) (platform this) (websocket this) (sockets this) (starts this).
Definition set_settings (v : Settings) (this : t) : t :=
  mk (isActive this) v (platform this) (websocket this) (sockets this) (starts this).
Definition set_platform (v : string) (this : t) : t :=
  mk (isActive this) (settings this) v (websocket this) (sockets this) (starts this).
Definition set_websocket (v : option nat) (this : t) : t :=
  mk (isActive this) (settings this) (platform this) v (sockets this) (starts this).
Definition set_sockets (v : list ReadyState) (this : t) : t :=
  mk (isActive this) (settings this) (platform this) (websocket this) v (starts this).
Definition set_starts (v : list Start) (this : t) : t :=
  mk (isActive this) (settings this) (platform this) (websocket this) (sockets this) v.

(** The fields as the constructor leaves them; [platform] is not set
    before [init] runs [detectPlatform] and is written as the empty
    string until then. *)
Definition constructor : t :=
  {| isActive := false;
     settings := <["targetLanguage" := Js.Str "en"]>
                 (<["serverUrl" := Js.Str "ws://localhost:8000"]>
                 (<["voicePreservation" := Js.Str "auto"]> ∅));
     platform := "";
     websocket := None;
     sockets := [];
     starts := [] |}.

(** [v || d] *)
Definition orElse (v : option Js.value) (d : Js.value) : Js.value :=
  match v with
  | Some v => if Js.truthy v then v else d
  | None => d
  end.

(** [loadSettings]: [result] is what [chrome.storage.sync.get] resolves
    with, [None] when it rejects.  Of [isActive] the truthiness is kept. *)
Definition loadSettings (result : option JsObject) (this : t) : t :=
  match result with
  | None => this
  | Some result =>
      let this := set_isActive (from_option Js.truthy false (result !! "isActive")) this in
      let this :=
        set_settings (<["targetLanguage" :=
                          orElse (result !! "targetLanguage") (Js.Str "en")]>
                        (settings this)) this in
      let this :=
        set_settings (<["serverUrl" :=
                          orElse (result !! "serverUrl") (Js.Str "ws://localhost:8000")]>
                        (settings this)) this in
      set_settings (<["voicePreservation" :=
                        orElse (result !! "voicePreservation") (Js.Str "auto")]>
                      (settings this)) this
  end.

(** [init], up to the point where the message listener is installed. *)
Definition init (result : option JsObject) (hostname : VoiceManagementUI.jsstring) : t :=
  let this := loadSettings result constructor in
  set_platform (Platform.detectPlatform hostname) this.

(** What [handleAudioData] reads of the script. *)
Definition view (this : t) : RTDContentScript.t :=
  RTDContentScript.mk (isActive this)
    (websocket this ≫= fun socket => sockets this !! socket).

(** What [close()] does to the [readyState] at once. *)
Definition closing (r : ReadyState) : ReadyState :=
  match r with
  | CONNECTING | OPEN => CLOSING
  | CLOSING | CLOSED => r
  end.

(** Whether a call is suspended on the socket [n]. *)
Definition waitsFor (n : nat) (s : Start) : bool :=
  match s with
  | Connecting socket _ => (socket =? n)%nat
  | AddingModule => false
  end.

(** [clearTimeout] for the call that created the socket [n]. *)
Definition clearTimeout (n : nat) (starts : list Start) : list Start :=
  map (fun s => if waitsFor n s then Connecting n false else s) starts.

(** The call that created the socket [n] returns or throws. *)
Definition settle (n : nat) (starts : list Start) : list Start :=
  List.filter (fun s => negb (waitsFor n s)) starts.

(** The part of [stopDubbing] that runs at the call (the rest, after the
    [await] of [audioContext.close()], touches neither [isActive] nor the
    sockets). *)
Definition stopDubbing (this : t) : t :=
  let this := set_isActive false this in
  match websocket this with
  | Some socket =>
      let this := set_sockets (alter closing socket (sockets this)) this in
      set_websocket None this
  | None => this
  end.

Definition updateSettings (settings' : Settings) (this : t) : t * list Frame :=
  let this := set_settings (spread (settings this) settings') this in
  if from_option isOpen false (RTDContentScript.websocket (view this))
  then (this, [SettingsUpdate (settings this)])
  else (this, []).

(** The [onopen] handler of the socket [n]: the timeout is cleared and
    the configuration goes to [this.websocket], whichever socket that is
    by now; when [send] raises (no socket, or one that is still
    connecting) the handler ends there, otherwise the promise is resolved
    and the call that waits for it, if there is one, goes on to set
    [isActive]. *)
Definition onopen (n : nat) (this : t) : t * list Frame :=
  let this := set_starts (clearTimeout n (starts this)) this in
  match RTDContentScript.websocket (view this) with
  | None | Some CONNECTING => (this, [])
  | Some r =>
      let sent := if isOpen r then [Config (settings this) (platform this)] else [] in
      if existsb (waitsFor n) (starts this)
      then (set_isActive true (set_starts (settle n (starts this)) this), sent)
      else (this, sent)
  end.

(** What can happen to the script, one task of the event loop each. *)
Inductive Event : Type :=
| StartDubbing (settings : Settings) (capturing : bool)
    (* startDubbing is called; it reaches the await of addModule, or
       throws before it (no video element, no capture) *)
| ModuleAdded (i : nat) (connecting : bool)
    (* the call [i] in flight resumes from addModule; it reaches the
       await of connectToServer with a new socket, or throws before it *)
| SocketOpened (n : nat)     (* the socket [n] opens *)
| SocketFailed (n : nat)     (* the socket [n] fails: onerror, then onclose *)
| SocketClosed (n : nat)     (* the open socket [n] is closed: onclose *)
| TimedOut (i : nat)         (* the timeout of the call [i] fires *)
| StopDubbing
| UpdateSettings (settings : Settings)
| AudioData (now : Z) (audioData : JsObject).  (* a worklet node posts a chunk *)

Definition isStart (e : Event) : bool :=
  match e with StartDubbing _ _ => true | _ => false end.

(** One event: the next state and the frames sent to the server.  An
    event that cannot happen in a state leaves it as it is. *)
Definition step (e : Event) (this : t) : t * list Frame :=
  match e with
  | StartDubbing settings' capturing =>
      let this := set_settings (spread (settings this) settings') this in
      if capturing then (set_starts (starts this ++ [AddingModule]) this, [])
      else (this, [])
  | ModuleAdded i connecting =>
      match starts this !! i with
      | Some AddingModule =>
          if connecting then
            let socket := length (sockets this) in
            let this := set_sockets (sockets this ++ [CONNECTING]) this in
            let this := set_websocket (Some socket) this in
            (set_starts (<[i := Connecting socket true]> (starts this)) this, [])
          else (set_starts (delete i (starts this)) this, [])
      | _ => (this, [])
      end
  | SocketOpened n =>
      match sockets this !! n with
      | Some CONNECTING => onopen n (set_sockets (<[n := OPEN]> (sockets this)) this)
      | _ => (this, [])
      end
  | SocketFailed n =>
      match sockets this !! n with
      | Some CONNECTING | Some OPEN | Some CLOSING =>
          let this := set_sockets (<[n := CLOSED]> (sockets this)) this in
          (set_starts (settle n (starts this)) this, [])
      | _ => (this, [])
      end
  | SocketClosed n =>
      match sockets this !! n with
      | Some OPEN | Some CLOSING =>
          (set_sockets (<[n := CLOSED]> (sockets this)) this, [])
      | _ => (this, [])
      end
  | TimedOut i =>
      match starts this !! i with
      | Some (Connecting n true) =>
          match websocket this with
          | Some socket =>
              let this := set_sockets (alter closing socket (sockets this)) this in
              (set_starts (delete i (starts this)) this, [])
          | None => (set_starts (<[i := Connecting n false]> (starts this)) this, [])
          end
      | _ => (this, [])
      end
  | StopDubbing => (stopDubbing this, [])
  | UpdateSettings settings' => updateSettings settings' this
  | AudioData now audioData =>
      (this, map AudioChunk (RTDContentScript.handleAudioData now audioData (view this)))
  end.

Fixpoint run (es : list Event) (this : t) : t * list Frame :=
  match es with
  | [] => (this, [])
  | e :: es =>
      let '(this, sent) := step e this in
      let '(this, more) := run es this in
      (this, sent ++ more)
  end.

Definition isAudioChunk (f : Frame) : bool :=
  match f with
  | AudioChunk m => RTDContentScript.isAudioChunk m
  | _ => false
  end.

End RTDContentScriptLife.

(** ** static/js/voice_management.js: the create-actor form and the
       progress of a voice clone *)

Module VoiceManagementForms.
Import VoiceManagementUI.

(** A checkbox of [#speaker-selection-list]. *)
Record Checkbox : Type := {
  value : jsstring;
  checked : bool
}.

(** What the request comes to: [fetch] or [response.json()] throws, or
    there is a [data], of which the code reads whether [data.success] is
    truthy and [data.message] ([None] when it is undefined). *)
Inductive Reply : Type :=
| Thrown
| Data (success : bool) (message : option jsstring).

(** The object given to [JSON.stringify]. *)
Record ActorBody : Type := {
  name : jsstring;
  speaker_ids : list jsstring
}.

Inductive Effect : Type :=
| Alert (message : jsstring)
| Fetch (url method contentType : string) (body : ActorBody)
| HideModal
| LoadActorProfiles.

(** [message || fallback] *)
Definition orElse (message : option jsstring) (fallback : jsstring) : jsstring :=
  match message with
  | Some m => if truthy m then m else fallback
  | None => fallback
  end.

(** [submitCreateActorForm], on the value of [#actor-name] and the
    checkboxes of the speaker list in document order. *)
Definition submitCreateActorForm (nameInput : jsstring) (checkboxes : list Checkbox)
    (reply : Reply) : list Effect :=
  let name := trim nameInput in
  if negb (truthy name) then [Alert (units "Please enter an actor name.")]
  else
    let selectedSpeakers := map value (List.filter checked checkboxes) in
    Fetch "/api/voice-management/actors" "POST" "application/json"
          {| name := name; speaker_ids := selectedSpeakers |}
    :: match reply with
       | Data true _ =>
           [Alert (units "Actor created successfully!"); HideModal; LoadActorProfiles]
       | Data false message =>
           [Alert (units "Failed to create actor: "
                   ++ orElse message (units "Unknown error"))]
       | Thrown => [Alert (units "Error creating actor. Please try again.")]
       end.

Definition isAlert (e : Effect) : bool :=
  match e with Alert _ => true | _ => false end.

Definition isFetch (e : Effect) : bool :=
  match e with Fetch _ _ _ _ => true | _ => false end.

(** The simulated progress of [submitCreateVoiceForm] once the server has
    accepted the request: the counter, the width of the progress bar in
    percent, the status text, whether the interval is still set and
    whether the timeout that closes the modal has been set. *)
Record Clone : Type := {
  progress : Z;
  width : Z;
  statusText : string;
  interval : bool;
  closing : bool
}.

(** The state when [setInterval] is called. *)
Definition accepted : Clone :=
  {| progress := 0; width := 0; statusText := "Starting voice cloning...";
     interval := true; closing := false |}.

(** The callback of the interval. *)
Definition callback (s : Clone) : Clone :=
  let progress := progress s + 5 in
  let s := {| progress := progress; width := progress; statusText := statusText s;
              interval := interval s; closing := closing s |} in
  if progress <? 30 then
    {| progress := progress; width := width s;
       statusText := "Uploading and analyzing audio samples...";
       interval := interval s; closing := closing s |}
  else if progress <? 70 then
    {| progress := progress; width := width s;
       statusText := "Creating voice clone...";
       interval := interval s; closing := closing s |}
  else if progress <? 100 then
    {| progress := progress; width := width s;
       statusText := "Finalizing voice model...";
       interval := interval s; closing := closing s |}
  else
    {| progress := progress; width := width s;
       statusText := "Voice cloning completed successfully!";
       interval := false; closing := true |}.

(** 300 ms go by: the callback runs if the interval is still set. *)
Definition elapse (s : Clone) : Clone :=
  if interval s then callback s else s.

(** The state after [n] periods of 300 ms. *)
Definition after (n : nat) : Clone := Nat.iter n elapse accepted.

End VoiceManagementForms.
(** * Properties *)

(** ** Rational comparisons *)

Lemma Qltb_lt (x y : Q) : Js.Qltb x y = true <-> (x < y)%Q.
Proof.
  unfold Js.Qltb. rewrite negb_true_iff.
  split; intros H.
  - apply Qnot_le_lt. intros Hle. apply Qle_bool_iff in Hle. congruence.
  - destruct (Qle_bool y x) eqn:E; [|reflexivity].
    apply Qle_bool_iff in E. exfalso. apply (Qlt_not_le _ _ H E).
Qed.

Lemma Qltb_ge (x y : Q) : Js.Qltb x y = false <-> (y <= x)%Q.
Proof.
  unfold Js.Qltb. rewrite negb_false_iff. apply Qle_bool_iff.
Qed.

Lemma Qeq_bool_false (x y : Q) : Qeq_bool x y = false <-> ~ (x == y)%Q.
Proof.
  split.
  - intros H Heq. apply Qeq_bool_iff in Heq. congruence.
  - intros H. destruct (Qeq_bool x y) eqn:E; [|reflexivity].
    apply Qeq_bool_iff in E. contradiction.
Qed.

(** ** The worklet's buffer *)

Module AudioProcessorSpec.
Import AudioProcessor.

Lemma length_Float32Array (n : Z) :
  0 <= n -> Z.of_nat (length (Js.Float32Array n)) = n.
Proof. intros Hn. unfold Js.Float32Array. rewrite length_replicate. lia. Qed.

Lemma geb_ofZ (i B : Z) : Js.geb (inject_Z i) (Js.ofZ B) = (B <=? i).
Proof.
  unfold Js.geb, Js.ofZ. destruct (Z.leb_spec B i) as [H|H].
  - apply Qle_bool_iff. by rewrite <- Zle_Qle.
  - destruct (Qle_bool (inject_Z B) (inject_Z i)) eqn:E; [|done].
    apply Qle_bool_iff in E. rewrite <- Zle_Qle in E. lia.
Qed.

(** Under the invariant the test [bufferIndex >= bufferSize] compares the
    index with the number of slots. *)
Lemma geb_Inv this (i : nat) :
  Inv this ->
  Js.geb (inject_Z (Z.of_nat i)) (bufferSize this) = (slots this <=? Z.of_nat i).
Proof. intros (H & _). rewrite H. apply geb_ofZ. Qed.

(** Clamping an integer gives an integer. *)
Lemma clamp_ofZ (n : Z) :
  Js.max 1024 (Js.min 8192 (Js.ofZ n)) = Js.ofZ (Z.max 1024 (Z.min 8192 n)).
Proof.
  unfold Js.max, Js.min, Js.ofZ.
  destruct (Js.Qltb (inject_Z n) 8192) eqn:E1.
  - apply Qltb_lt in E1. change 8192%Q with (inject_Z 8192) in E1.
    rewrite <- Zlt_Qlt in E1.
    destruct (Js.Qltb 1024 (inject_Z n)) eqn:E2.
    + apply Qltb_lt in E2. change 1024%Q with (inject_Z 1024) in E2.
      rewrite <- Zlt_Qlt in E2. do 2 f_equal. lia.
    + apply Qltb_ge in E2. change 1024%Q with (inject_Z 1024) in E2.
      rewrite <- Zle_Qle in E2.
      replace (Z.max 1024 (Z.min 8192 n)) with 1024 by lia. done.
  - apply Qltb_ge in E1. change 8192%Q with (inject_Z 8192) in E1.
    rewrite <- Zle_Qle in E1.
    replace (Z.max 1024 (Z.min 8192 n)) with 8192 by lia. done.
Qed.

Lemma toIndex_ofZ (n : Z) : Js.toIndex (Js.ofZ n) = n.
Proof. unfold Js.toIndex, Js.ofZ. simpl. apply Z.quot_1_r. Qed.


Lemma Inv_constructor : Inv constructor.
Proof. unfold Inv, slots, constructor. simpl. repeat split; lia. Qed.

Lemma updateBufferSize_ofZ (n : Z) this :
  let resized := updateBufferSize (Js.ofZ n) this in
  bufferSize resized = Js.ofZ (Z.max 1024 (Z.min 8192 n))
  /\ buffer resized = replicate (Z.to_nat (Z.max 1024 (Z.min 8192 n))) 0%Q
  /\ slots resized = Z.max 1024 (Z.min 8192 n)
  /\ bufferIndex resized = 0%nat.
Proof.
  unfold updateBufferSize, slots.
  cbn [buffer bufferSize bufferIndex set_bufferIndex set_buffer set_bufferSize].
  rewrite clamp_ofZ, toIndex_ofZ.
  repeat split. apply length_Float32Array. lia.
Qed.

Lemma Inv_updateBufferSize (n : Z) this : Inv (updateBufferSize (Js.ofZ n) this).
Proof.
  destruct (updateBufferSize_ofZ n this) as (H1 & _ & H3 & H4).
  unfold Inv. rewrite H1, H3, H4. repeat split; lia.
Qed.

Lemma Inv_handleMessage data this :
  integerSize data -> Inv this -> Inv (handleMessage data this).
Proof.
  intros Hsize H. unfold handleMessage.
  repeat case_match; try exact H.
  destruct Hsize as [n ->]; [by apply String.eqb_eq|].
  apply Inv_updateBufferSize.
Qed.

Lemma Inv_bufferSample g x this : Inv this -> Inv (fst (bufferSample g x this)).
Proof.
  intros HI. pose proof HI as (Hlen & Hb & Hi). unfold bufferSample.
  destruct (isProcessing this); [|done].
  cbn [set_buffer set_bufferIndex bufferSize bufferIndex buffer].
  rewrite Hlen, geb_ofZ.
  destruct (Z.leb_spec (slots this) (Z.of_nat (S (bufferIndex this))));
    unfold Inv, slots in *; simpl; rewrite length_insert; repeat split; try done; lia.
Qed.

Lemma Reachable_Inv init this :
  Inv init -> Reachable integerSize init this -> Inv this.
Proof.
  intros Hinit. induction 1; auto using Inv_handleMessage, Inv_bufferSample.
Qed.







(** The fields that [bufferSample] leaves alone. *)
Lemma bufferSample_frame g x this :
  let this' := fst (bufferSample g x this) in
  bufferSize this' = bufferSize this
  /\ isProcessing this' = isProcessing this
  /\ sampleRate this' = sampleRate this
  /\ frameCount this' = frameCount this.
Proof.
  unfold bufferSample. destruct (isProcessing this) eqn:E; simpl; [|done].
  case_match; simpl; auto.
Qed.

Lemma bufferSample_slots g x this :
  slots (fst (bufferSample g x this)) = slots this.
Proof.
  unfold bufferSample, slots. destruct (isProcessing this) eqn:E; simpl; [|done].
  case_match; simpl; by rewrite length_insert.
Qed.




(** C8, for an integer size.  Handling a set_buffer_size message whose
    size is the integer [n] sets [bufferSize] to max(1024, min(8192, n)),
    reallocates the buffer with exactly that many zeroed slots and resets
    [bufferIndex] to 0, whatever had been accumulated; and in every state
    the processor reaches afterwards, and in every state it reaches from
    its construction, as long as the sizes it is sent are integers,
    [bufferSize] is the number of slots of the buffer and [bufferIndex]
    is strictly below it, in particular before each buffered sample
    write. *)
Theorem set_buffer_size_bounds (n : Z) (data : PortData) (this : t) :
  type data = "set_buffer_size" -> size data = Js.ofZ n ->
  let resized := handleMessage data this in
  bufferSize resized = Js.ofZ (Z.max 1024 (Z.min 8192 n))
  /\ buffer resized = replicate (Z.to_nat (Z.max 1024 (Z.min 8192 n))) 0%Q
  /\ slots resized = Z.max 1024 (Z.min 8192 n)
  /\ bufferIndex resized = 0%nat
  /\ (forall st,
        Reachable integerSize resized st \/ Reachable integerSize constructor st ->
        bufferSize st = Js.ofZ (slots st)
        /\ Z.of_nat (bufferIndex st) < slots st).
Proof.
  intros Htype Hsize resized.
  assert (Hr : resized = updateBufferSize (Js.ofZ n) this).
  { subst resized. unfold handleMessage. by rewrite Htype, Hsize. }
  destruct (updateBufferSize_ofZ n this) as (H1 & H2 & H3 & H4).
  rewrite Hr. split; [exact H1|]. split; [exact H2|].
  split; [exact H3|]. split; [exact H4|].
  intros st Hst.
  assert (Hinv : Inv st).
  { destruct Hst as [Hst|Hst].
    - exact (Reachable_Inv _ _ (Inv_updateBufferSize n this) Hst).
    - exact (Reachable_Inv _ _ Inv_constructor Hst). }
  destruct Hinv as (I1 & _ & I3). by split.
Qed.

Lemma set_buffer_size_bounds_witness :
  bufferSize (handleMessage {| type := "set_buffer_size"; size := Js.ofZ 100000 |}
                constructor) = Js.ofZ 8192
  /\ Z.of_nat (bufferIndex (fst (bufferSample {| g_sampleRate := 48000; g_currentTime := 0 |}
                                  (1 # 2) constructor))) < 2048.
Proof.
  destruct (set_buffer_size_bounds 100000
              {| type := "set_buffer_size"; size := Js.ofZ 100000 |} constructor
              eq_refl eq_refl) as (H1 & _ & _ & _ & H5).
  split; [exact H1|].
  refine (proj2 (H5 (fst (bufferSample _ _ constructor)) (or_intror _))).
  apply reach_sample, reach_init.
Defined.

(** C8, counterexample.  A size of 1024.5 is within the bounds and is
    kept as it is: [bufferSize] is then 1024.5 while the buffer has 1024
    slots, so the buffer does not have exactly [bufferSize] slots.  A
    message without a size leaves [bufferSize] NaN, which is not
    max(1024, min(8192, n)) for any number n, over an empty buffer. *)
Lemma set_buffer_size_fraction_counterexample :
  let resized :=
    handleMessage {| type := "set_buffer_size"; size := Js.Fin (2049 # 2) |} constructor in
  let unsized :=
    handleMessage {| type := "set_buffer_size"; size := Js.NaN |} constructor in
  (exists q, bufferSize resized = Js.Fin q /\ ~ (q == inject_Z (slots resized))%Q)
  /\ slots resized = 1024
  /\ bufferSize unsized = Js.NaN /\ buffer unsized = [].
Proof.
  split; [|by vm_compute].
  exists (2049 # 2)%Q. split; [by vm_compute|].
  vm_compute. discriminate.
Qed.

End AudioProcessorSpec.

Module CompressorSpec.
Import AudioProcessor.

(** Case analysis on the sign of [x], with [Qabs x] rewritten. *)
Ltac qabs x :=
  let H := fresh "Habs" in
  destruct (Qlt_le_dec x 0);
  [ assert (H : (Qabs x == - x)%Q) by (apply Qabs_neg; lra)
  | assert (H : (Qabs x == x)%Q) by (apply Qabs_pos; lra) ].

Lemma compress_below (s threshold ratio : Q) :
  (Qabs s <= threshold)%Q -> compress s threshold ratio = s.
Proof.
  intros H. unfold compress.
  apply Qltb_ge in H. by rewrite H.
Qed.

Lemma compress_above_pos (s threshold ratio : Q) :
  (threshold < Qabs s)%Q -> (0 <= s)%Q ->
  compress s threshold ratio = (threshold + (Qabs s - threshold) * ratio)%Q.
Proof.
  intros H Hs. unfold compress.
  apply Qltb_lt in H. rewrite H.
  apply Qle_bool_iff in Hs. by rewrite Hs.
Qed.

Lemma compress_above_neg (s threshold ratio : Q) :
  (threshold < Qabs s)%Q -> (s < 0)%Q ->
  compress s threshold ratio = (- (threshold + (Qabs s - threshold) * ratio))%Q.
Proof.
  intros H Hs. unfold compress.
  apply Qltb_lt in H. rewrite H.
  destruct (Qle_bool 0 s) eqn:E; [|done].
  apply Qle_bool_iff in E. lra.
Qed.

Lemma compress_cases (s : Q) :
  ((Qabs s <= 7 # 10) /\ compress s (7 # 10) (1 # 2) = s)%Q
  \/ ((7 # 10 < s) /\ compress s (7 # 10) (1 # 2) == (7 # 20) + s * (1 # 2))%Q
  \/ ((s < - (7 # 10)) /\ compress s (7 # 10) (1 # 2) == - (7 # 20) + s * (1 # 2))%Q.
Proof.
  destruct (Qlt_le_dec (7 # 10) (Qabs s)) as [Hgt|Hle].
  - right. qabs s.
    + right. split; [lra|]. rewrite compress_above_neg by (lra || done). lra.
    + left. split; [lra|]. rewrite compress_above_pos by (lra || done). lra.
  - left. split; [done|]. by apply compress_below.
Qed.

Lemma compress_abs (s : Q) : (Qabs (compress s (7 # 10) (1 # 2)) <= Qabs s)%Q.
Proof.
  destruct (compress_cases s) as [[_ ->]|[[H E]|[H E]]]; [lra| |]; rewrite E.
  - assert (H1 : (Qabs s == s)%Q) by (apply Qabs_pos; lra).
    assert (H2 : (Qabs ((7 # 20) + s * (1 # 2)) == (7 # 20) + s * (1 # 2))%Q)
      by (apply Qabs_pos; lra).
    lra.
  - assert (H1 : (Qabs s == - s)%Q) by (apply Qabs_neg; lra).
    assert (H2 : (Qabs (- (7 # 20) + s * (1 # 2)) == - (- (7 # 20) + s * (1 # 2)))%Q)
      by (apply Qabs_neg; lra).
    lra.
Qed.

Lemma preprocessSample_abs (s : Q) : (Qabs (preprocessSample s) <= Qabs s)%Q.
Proof.
  unfold preprocessSample. case_match.
  - rewrite compress_below by (unfold Qle; simpl; lia). apply Qabs_nonneg.
  - apply compress_abs.
Qed.

(** C9.  The compressor with threshold 0.7 and ratio 0.5 returns its
    argument when the magnitude is at most 0.7, keeps the sign of its
    argument, and never returns a larger magnitude; hence no sample of a
    preprocessed buffer is larger in magnitude than the sample it comes
    from. *)
Theorem compress_never_amplifies (s : Q) :
  ((Qabs s <= 7 # 10)%Q -> compress s (7 # 10) (1 # 2) = s)
  /\ ((0 < s)%Q -> (0 < compress s (7 # 10) (1 # 2))%Q)
  /\ ((s == 0)%Q -> (compress s (7 # 10) (1 # 2) == 0)%Q)
  /\ ((s < 0)%Q -> (compress s (7 # 10) (1 # 2) < 0)%Q)
  /\ (Qabs (compress s (7 # 10) (1 # 2)) <= Qabs s)%Q
  /\ (forall (inputBuffer : list Q) (i : nat) (x : Q),
        inputBuffer !! i = Some x ->
        exists y, preprocessAudio inputBuffer !! i = Some y /\ (Qabs y <= Qabs x)%Q).
Proof.
  split; [apply compress_below|].
  repeat split.
  - intros H. destruct (compress_cases s) as [[_ ->]|[[H' E]|[H' E]]]; lra.
  - intros H. destruct (compress_cases s) as [[_ ->]|[[H' E]|[H' E]]]; lra.
  - intros H. destruct (compress_cases s) as [[_ ->]|[[H' E]|[H' E]]]; lra.
  - apply compress_abs.
  - intros inputBuffer i x Hx. exists (preprocessSample x). split.
    + unfold preprocessAudio. by rewrite list_lookup_fmap, Hx.
    + apply preprocessSample_abs.
Qed.

Lemma compress_never_amplifies_witness :
  compress (1 # 2) (7 # 10) (1 # 2) = (1 # 2)%Q
  /\ (0 < compress (9 # 10) (7 # 10) (1 # 2))%Q
  /\ (compress 0 (7 # 10) (1 # 2) == 0)%Q
  /\ (compress (- (9 # 10)) (7 # 10) (1 # 2) < 0)%Q
  /\ (exists y, preprocessAudio [9 # 10] !! 0%nat = Some y /\ (Qabs y <= Qabs (9 # 10))%Q).
Proof.
  split; [apply (proj1 (compress_never_amplifies (1 # 2))); unfold Qle; simpl; lia|].
  split; [apply (proj1 (proj2 (compress_never_amplifies (9 # 10)))); lra|].
  split; [apply (proj1 (proj2 (proj2 (compress_never_amplifies 0)))); lra|].
  split; [apply (proj1 (proj2 (proj2 (proj2 (compress_never_amplifies (- (9 # 10))))))); lra|].
  apply (proj2 (proj2 (proj2 (proj2 (proj2 (compress_never_amplifies 0))))) [9 # 10] 0%nat).
  reflexivity.
Defined.

End CompressorSpec.

Module PassThroughSpec.
Import AudioProcessor.

(** The loop does not touch the output below its current index. *)
Lemma processLoop_below g inputChannel : forall i this outputChannel j,
  (j < i)%nat ->
  (processLoop g inputChannel i this outputChannel).1.2 !! j = outputChannel !! j.
Proof.
  induction inputChannel as [|x rest IH]; intros i this out j Hj; simpl; [done|].
  destruct (bufferSample g x this) as [this1 msgs].
  specialize (IH (S i) this1 (<[i:=x]> out) j).
  destruct (processLoop g rest (S i) this1 (<[i:=x]> out)) as [[this2 out2] more].
  simpl in *. rewrite IH by lia. apply list_lookup_insert_ne. lia.
Qed.

Lemma processLoop_length g inputChannel : forall i this outputChannel,
  length (processLoop g inputChannel i this outputChannel).1.2 = length outputChannel.
Proof.
  induction inputChannel as [|x rest IH]; intros i this out; simpl; [done|].
  destruct (bufferSample g x this) as [this1 msgs].
  specialize (IH (S i) this1 (<[i:=x]> out)).
  destruct (processLoop g rest (S i) this1 (<[i:=x]> out)) as [[this2 out2] more].
  simpl in *. by rewrite IH, length_insert.
Qed.

(** Sample [j] of the input ends up at index [i + j] of the output. *)
Lemma processLoop_copies g inputChannel : forall i this outputChannel j x,
  inputChannel !! j = Some x ->
  (i + j < length outputChannel)%nat ->
  (processLoop g inputChannel i this outputChannel).1.2 !! (i + j)%nat = Some x.
Proof.
  induction inputChannel as [|x0 rest IH]; intros i this out j x Hx Hlen; [done|].
  simpl.
  destruct (bufferSample g x0 this) as [this1 msgs].
  pose proof (IH (S i) this1 (<[i:=x0]> out)) as IH'.
  pose proof (processLoop_below g rest (S i) this1 (<[i:=x0]> out) i) as Hb.
  destruct (processLoop g rest (S i) this1 (<[i:=x0]> out)) as [[this2 out2] more].
  simpl in *. destruct j as [|j]; simpl in Hx.
  - inversion Hx; subst. rewrite Nat.add_0_r, Hb by lia.
    apply list_lookup_insert_eq. lia.
  - replace (i + S j)%nat with (S i + j)%nat by lia.
    apply IH'; [done|]. rewrite length_insert. lia.
Qed.

(** X24.  For every frame that [process] handles and every index [i],
    the sample at [i] of the first channel of the first output equals the
    sample at [i] of the first channel of the first input when the call
    returns, whatever the state of the processor ([isProcessing]
    included). *)
Theorem process_pass_through (g : Globals) (this : t)
    (inputs outputs : list (list (list Q))) (input output : list (list Q))
    (inputChannel outputChannel : list Q) (i : nat) (x : Q) :
  inputs !! 0%nat = Some input ->
  input !! 0%nat = Some inputChannel ->
  outputs !! 0%nat = Some output ->
  output !! 0%nat = Some outputChannel ->
  inputChannel !! i = Some x ->
  (i < length outputChannel)%nat ->
  completion (process g this inputs outputs) = Returned true
  /\ exists output' outputChannel',
       outputs' (process g this inputs outputs) !! 0%nat = Some output'
       /\ output' !! 0%nat = Some outputChannel'
       /\ outputChannel' !! i = Some x.
Proof.
  intros Hin Hch Hout Hoch Hx Hlen. unfold process.
  rewrite Hin, Hch, Hout, Hoch.
  set (this1 := if Qeq_bool _ _ then _ else _).
  pose proof (processLoop_copies g inputChannel 0 this1 outputChannel i x Hx Hlen) as Hc.
  destruct (processLoop g inputChannel 0 this1 outputChannel) as [[this2 out2] msgs].
  simpl in *. split; [done|].
  exists (<[0%nat:=out2]> output), out2. repeat split; [| |done].
  - apply list_lookup_insert_eq. by eapply lookup_lt_Some.
  - apply list_lookup_insert_eq. by eapply lookup_lt_Some.
Qed.

Lemma process_pass_through_witness :
  exists output' outputChannel',
    outputs' (process {| g_sampleRate := 48000; g_currentTime := 0 |}
                (set_isProcessing false constructor)
                [[[1 # 2; 1 # 3]]] [[[0%Q; 0%Q]]]) !! 0%nat = Some output'
    /\ output' !! 0%nat = Some outputChannel'
    /\ outputChannel' !! 1%nat = Some (1 # 3)%Q.
Proof.
  refine (proj2 (process_pass_through _ _ [[[1 # 2; 1 # 3]]] [[[0%Q; 0%Q]]]
                   [[1 # 2; 1 # 3]] [[0%Q; 0%Q]] [1 # 2; 1 # 3] [0%Q; 0%Q]
                   1%nat (1 # 3) _ _ _ _ _ _)); try reflexivity.
  simpl. lia.
Defined.

(** C6, failing input.  A frame of two channels: the first is copied to
    the output, the second is not; the second output channel is left as
    it was, silent, whatever the second input channel holds. *)
Theorem second_channel_not_passed_through :
  let r := process {| g_sampleRate := 48000; g_currentTime := 0 |} constructor
             [[[1 # 2; 1 # 3]; [1 # 5; 1 # 7]]] [[[0; 0]; [0; 0]]]%Q in
  completion r = Returned true
  /\ outputs' r = [[[1 # 2; 1 # 3]; [0; 0]]]%Q.
Proof. vm_compute. split; reflexivity. Qed.

End PassThroughSpec.

(** ** Chunks: when they are emitted and what they carry *)

Module ChunkSpec.
Import AudioProcessor.
Import AudioProcessorSpec.

(** Writing the last free slot completes the buffer. *)
Lemma pending_full (l : list Q) (k : nat) (x : Q) :
  length l = S k -> <[k:=x]> l = take k l ++ [x].
Proof.
  revert k. induction l as [|y l IH]; intros k Hl; [done|].
  destruct k as [|k]; simpl in *.
  - by destruct l.
  - f_equal. apply IH. lia.
Qed.

Lemma pending_grows (l : list Q) (k : nat) (x : Q) :
  (k < length l)%nat -> take (S k) (<[k:=x]> l) = take k l ++ [x].
Proof.
  revert k. induction l as [|y l IH]; intros k Hl; simpl in *; [lia|].
  destruct k as [|k]; simpl.
  - by rewrite take_0.
  - f_equal. apply IH. lia.
Qed.

(** What buffering one sample does while processing is enabled. *)
Lemma bufferSample_processing g x this :
  Inv this -> isProcessing this = true ->
  (Z.of_nat (bufferIndex this) + 1 < slots this ->
     snd (bufferSample g x this) = []
     /\ bufferIndex (fst (bufferSample g x this)) = S (bufferIndex this)
     /\ pending (fst (bufferSample g x this)) = pending this ++ [x])
  /\ (Z.of_nat (bufferIndex this) + 1 = slots this ->
     snd (bufferSample g x this)
       = [processBuffer g (set_buffer (pending this ++ [x]) this)]
     /\ bufferIndex (fst (bufferSample g x this)) = 0%nat
     /\ pending (fst (bufferSample g x this)) = []).
Proof.
  intros HI Hp. pose proof HI as (Hlen & Hb & Hi). unfold bufferSample. rewrite Hp.
  cbn [set_buffer set_bufferIndex bufferSize bufferIndex buffer].
  rewrite (geb_Inv this _ HI). unfold slots in *.
  split; intros Hk.
  - destruct (Z.leb_spec (Z.of_nat (length (buffer this)))
                (Z.of_nat (S (bufferIndex this)))); [lia|].
    simpl. repeat split. unfold pending; simpl. apply pending_grows. lia.
  - destruct (Z.leb_spec (Z.of_nat (length (buffer this)))
                (Z.of_nat (S (bufferIndex this)))); [|lia].
    simpl. repeat split. f_equal. unfold processBuffer, pending; simpl.
    rewrite pending_full by lia. done.
Qed.

Lemma bufferSample_idle g x this :
  isProcessing this = false -> bufferSample g x this = (this, []).
Proof. intros Hp. unfold bufferSample. by rewrite Hp. Qed.

Lemma processLoop_idle g inputChannel : forall i this outputChannel,
  isProcessing this = false ->
  (processLoop g inputChannel i this outputChannel).1.1 = this
  /\ (processLoop g inputChannel i this outputChannel).2 = [].
Proof.
  induction inputChannel as [|x rest IH]; intros i this out Hp; simpl; [done|].
  rewrite bufferSample_idle by done.
  specialize (IH (S i) this (<[i:=x]> out) Hp).
  destruct (processLoop g rest (S i) this (<[i:=x]> out)) as [[this2 out2] more].
  simpl in *. destruct IH as [-> ->]. done.
Qed.

(** A frame of [n] samples met with [k] pending ones posts
    [(k + n) / bufferSize] chunks and leaves [(k + n) mod bufferSize]
    samples pending. *)
Lemma processLoop_count g inputChannel : forall i this outputChannel,
  Inv this -> isProcessing this = true ->
  let r := processLoop g inputChannel i this outputChannel in
  let total := Z.of_nat (bufferIndex this) + Z.of_nat (length inputChannel) in
  Z.of_nat (length r.2) = total / slots this
  /\ Z.of_nat (bufferIndex r.1.1) = total mod slots this
  /\ bufferSize r.1.1 = bufferSize this.
Proof.
  induction inputChannel as [|x rest IH]; intros i this out HI Hp; simpl.
  - destruct HI as (Hlen & Hb & Hi).
    rewrite Z.add_0_r, Z.div_small, Z.mod_small by lia. done.
  - pose proof (bufferSample_processing g x this HI Hp) as [Hlt Heq].
    pose proof (Inv_bufferSample g x this HI) as HI1.
    pose proof (bufferSample_frame g x this) as (Hsz & Hp1 & _).
    pose proof (bufferSample_slots g x this) as Hsl.
    destruct (bufferSample g x this) as [this1 msgs]. simpl in *.
    specialize (IH (S i) this1 (<[i:=x]> out) HI1 ltac:(congruence)).
    destruct (processLoop g rest (S i) this1 (<[i:=x]> out)) as [[this2 out2] more].
    simpl in *. destruct IH as (IH1 & IH2 & IH3).
    destruct HI as (Hlen & Hb & Hi). rewrite length_app, Hsl in *.
    destruct (decide (Z.of_nat (bufferIndex this) + 1 = slots this)) as [Hfull|Hnot].
    + destruct (Heq Hfull) as (-> & Hidx & _). rewrite Hidx in *. simpl.
      replace (Z.of_nat (bufferIndex this) + Z.of_nat (S (length rest)))
        with (Z.of_nat (length rest) + 1 * slots this) by lia.
      rewrite Z.div_add, Z.mod_add by lia.
      change (Z.of_nat 0) with 0 in IH1, IH2. rewrite Z.add_0_l in IH1, IH2.
      repeat split; first [lia | congruence].
    + destruct (Hlt ltac:(lia)) as (-> & Hidx & _). rewrite Hidx in *. simpl.
      replace (Z.of_nat (bufferIndex this) + Z.of_nat (S (length rest)))
        with (Z.of_nat (S (bufferIndex this)) + Z.of_nat (length rest)) by lia.
      repeat split; first [lia | congruence].
Qed.

End ChunkSpec.

Module ForwardSpec.
Import AudioProcessor.
Import AudioProcessorSpec ChunkSpec.




End ForwardSpec.

Module GateSpec.
Import AudioProcessor.
Import AudioProcessorSpec ChunkSpec.


Lemma foldl_sumAbs (l : list Q) : forall a,
  (foldl (fun sum x => sum + Qabs x) a l == a + sumAbs l)%Q.
Proof.
  induction l as [|x l IH]; intros a; simpl; [lra|].
  rewrite IH. lra.
Qed.

(** The level of a non-empty buffer is its mean absolute amplitude. *)
Lemma calculateAudioLevel_mean (buffer : list Q) :
  buffer <> [] ->
  exists q, calculateAudioLevel buffer = Js.Fin q
            /\ (q * inject_Z (Z.of_nat (length buffer)) == sumAbs buffer)%Q.
Proof.
  intros Hne. unfold calculateAudioLevel, Js.div.
  assert (Hlen : ~ (inject_Z (Z.of_nat (length buffer)) == 0)%Q).
  { destruct buffer; [done|]. unfold Qeq; simpl. lia. }
  apply Qeq_bool_false in Hlen as Hb. rewrite Hb.
  eexists. split; [reflexivity|].
  rewrite foldl_sumAbs. field. exact Hlen.
Qed.

Lemma preprocessSample_gate (x : Q) :
  preprocessSample x
  = if Js.Qltb (Qabs x) (1 # 1000) then 0%Q else compress x (7 # 10) (1 # 2).
Proof. unfold preprocessSample. by case_match. Qed.

(** C2, as the code has it.  The mean absolute amplitude of every full
    buffer ([slots] samples, which is [bufferSize] of them by the
    invariant) is computed and reported as the [level] of its audio_chunk;
    no chunk is tagged silent and none bypasses preprocessing on account
    of its level: a sample that completes the buffer always posts the
    chunk, whose audio is a copy in which every sample of magnitude below
    the fixed 0.001 is replaced by 0 and every other sample has gone
    through the compressor. *)
Theorem level_reported_samples_gated (g : Globals) (x : Q) (this : t) :
  Inv this -> isProcessing this = true ->
  Z.of_nat (bufferIndex this) + 1 = slots this ->
  let chunk := pending this ++ [x] in
  exists m q,
    snd (bufferSample g x this) = [m]
    /\ m !! "type" = Some (Js.Str "audio_chunk")
    /\ m !! "silent" = None
    /\ m !! "level" = Some (Js.Num (Js.Fin q))
    /\ (q * inject_Z (Z.of_nat (length chunk)) == sumAbs chunk)%Q
    /\ m !! "audioBuffer" = Some (Js.Arr (preprocessAudio chunk))
    /\ length (preprocessAudio chunk) = length chunk
    /\ forall i s, chunk !! i = Some s ->
         preprocessAudio chunk !! i
         = Some (if Js.Qltb (Qabs s) (1 # 1000) then 0%Q else compress s (7 # 10) (1 # 2)).
Proof.
  intros HI Hp Hk chunk.
  destruct (bufferSample_processing g x this HI Hp) as [_ Heq].
  destruct (Heq Hk) as (Hm & _ & _).
  destruct (calculateAudioLevel_mean chunk) as (q & Hq & Hmean);
    [subst chunk; by destruct (pending this)|].
  eexists. exists q. split; [exact Hm|].
  unfold processBuffer. cbn [set_buffer buffer]. fold chunk. rewrite Hq.
  repeat split; try (by simplify_map_eq).
  - unfold preprocessAudio. by rewrite length_map.
  - intros i s Hs. unfold preprocessAudio.
    rewrite list_lookup_fmap, Hs. simpl. by rewrite preprocessSample_gate.
Qed.

Lemma level_reported_samples_gated_witness :
  exists m q,
    snd (bufferSample {| g_sampleRate := 48000; g_currentTime := 0 |} (1 # 2)
           (set_bufferIndex 2047 constructor)) = [m]
    /\ m !! "silent" = None
    /\ m !! "level" = Some (Js.Num (Js.Fin q)).
Proof.
  assert (HI : Inv (set_bufferIndex 2047 constructor)).
  { unfold Inv, slots.
    cbn [bufferSize buffer bufferIndex set_bufferIndex constructor].
    change (Z.of_nat (length (Js.Float32Array 2048))) with 2048.
    repeat split; try done; lia. }
  destruct (level_reported_samples_gated
              {| g_sampleRate := 48000; g_currentTime := 0 |} (1 # 2)
              (set_bufferIndex 2047 constructor) HI eq_refl eq_refl)
    as (m & q & H1 & _ & H3 & H4 & _).
  exists m, q. repeat split; assumption.
Defined.

(** C2, counterexample.  Sixteen render quanta, silent but for one
    sample of 0.0005, make a chunk whose mean absolute amplitude is below
    0.001; the chunk is posted all the same, with no [silent] property,
    and its audio is not the original: the sample has become 0. *)
Lemma noise_gate_counterexample :
  let buffered := buffer (fst (run (sixteenQuanta (1 # 2000)) constructor)) in
  match snd (run (sixteenQuanta (1 # 2000)) constructor) with
  | [m] =>
      match m !! "level" with
      | Some (Js.Num (Js.Fin level)) => Js.Qltb level (1 # 1000)
      | _ => false
      end
      && negb (Js.has m "silent")
      && from_option (fun y => Qeq_bool y 0) false
           (Js.getArr m "audioBuffer" !! 1920%nat)
      && from_option (fun x => Qeq_bool x (1 # 2000)) false (buffered !! 1920%nat)
  | _ => false
  end = true.
Proof. vm_compute. reflexivity. Qed.




End GateSpec.

(** ** Stopping *)

Module StopSpec.
Import AudioProcessorSpec ChunkSpec.

Lemma process_idle g this inputs outputs :
  AudioProcessor.isProcessing this = false ->
  AudioProcessor.posted (AudioProcessor.process g this inputs outputs) = []
  /\ AudioProcessor.isProcessing
       (AudioProcessor.this' (AudioProcessor.process g this inputs outputs)) = false.
Proof.
  intros Hp. unfold AudioProcessor.process.
  repeat case_match; simpl; subst; try done.
  all: match goal with
       | H : AudioProcessor.processLoop ?g ?l ?i ?th ?o = (?a, ?b, ?c) |- _ =>
           let Hi := fresh in
           assert (Hi : AudioProcessor.isProcessing th = false) by done;
           destruct (processLoop_idle g l i th o Hi) as [? ?];
           rewrite H in *; simpl in *; by subst
       end.
Qed.

Lemma handleMessage_idle data this :
  AudioProcessor.isProcessing this = false ->
  AudioProcessor.isStart (AudioProcessor.Message data) = false ->
  AudioProcessor.isProcessing (AudioProcessor.handleMessage data this) = false.
Proof.
  simpl. intros Hp Hs. unfold AudioProcessor.handleMessage. rewrite Hs.
  repeat case_match; done.
Qed.

(** A stopped worklet posts nothing until it is started again. *)
Lemma worklet_idle es : forall this,
  AudioProcessor.isProcessing this = false ->
  Forall (fun e => AudioProcessor.isStart e = false) es ->
  snd (AudioProcessor.run es this) = [].
Proof.
  induction es as [|e es IH]; intros this Hp Hes; simpl; [done|].
  inversion Hes as [|? ? He Hes']; subst.
  destruct (AudioProcessor.step e this) as [this1 msgs] eqn:E1.
  assert (msgs = [] /\ AudioProcessor.isProcessing this1 = false) as [-> Hp1].
  { destruct e as [data|g inputs outputs]; simpl in E1; inversion E1; subst.
    - split; [done|]. by apply handleMessage_idle.
    - by apply process_idle. }
  specialize (IH this1 Hp1 Hes').
  destruct (AudioProcessor.run es this1) as [this2 more]. simpl in *. by subst.
Qed.

(** A script that is inactive, without a socket and without a call of
    [startDubbing] in flight stays so, and sends nothing, until
    [startDubbing] is called. *)
Lemma content_idle es : forall this,
  RTDContentScriptLife.isActive this = false ->
  RTDContentScriptLife.websocket this = None ->
  RTDContentScriptLife.starts this = [] ->
  Forall (fun e => RTDContentScriptLife.isStart e = false) es ->
  snd (RTDContentScriptLife.run es this) = []
  /\ RTDContentScriptLife.isActive (fst (RTDContentScriptLife.run es this)) = false
  /\ RTDContentScriptLife.websocket (fst (RTDContentScriptLife.run es this)) = None.
Proof.
  induction es as [|e es IH]; intros this Ha Hw Hs Hes; simpl; [done|].
  inversion Hes as [|? ? He Hes']; subst.
  destruct (RTDContentScriptLife.step e this) as [this1 sent] eqn:E1.
  assert (sent = []
          /\ RTDContentScriptLife.isActive this1 = false
          /\ RTDContentScriptLife.websocket this1 = None
          /\ RTDContentScriptLife.starts this1 = []) as (-> & Ha1 & Hw1 & Hs1).
  { destruct this as [a st pf w so ss]. simpl in Ha, Hw, Hs. subst a w ss.
    destruct e; simpl in E1, He; try done;
      unfold RTDContentScriptLife.onopen, RTDContentScriptLife.updateSettings,
        RTDContentScriptLife.stopDubbing in E1;
      simpl in E1; rewrite ?lookup_nil in E1;
      repeat case_match; by inversion E1. }
  destruct (IH this1 Ha1 Hw1 Hs1 Hes') as (I1 & I2 & I3).
  destruct (RTDContentScriptLife.run es this1) as [this2 more]. simpl in *.
  by subst.
Qed.

Lemma stopDubbing_idle (this : RTDContentScriptLife.t) :
  RTDContentScriptLife.isActive (RTDContentScriptLife.stopDubbing this) = false
  /\ RTDContentScriptLife.websocket (RTDContentScriptLife.stopDubbing this) = None
  /\ RTDContentScriptLife.starts (RTDContentScriptLife.stopDubbing this)
     = RTDContentScriptLife.starts this.
Proof.
  unfold RTDContentScriptLife.stopDubbing.
  destruct this as [a st pf [w|] so ss]; done.
Qed.


(** X23.  Once the worklet has handled a stop message it posts no
    message at all, for as long as no start message follows.  Once the
    content script has run [stopDubbing] with no call of [startDubbing]
    in flight, it sends no frame at all (so no audio_chunk either,
    whatever chunks are still delivered to it) and stays inactive and
    without a socket, for as long as [startDubbing] is not called. *)
Theorem nothing_sent_after_stop
    (data : AudioProcessor.PortData) (worklet : AudioProcessor.t)
    (wes : list AudioProcessor.Event)
    (content : RTDContentScriptLife.t) (ces : list RTDContentScriptLife.Event) :
  AudioProcessor.type data = "stop" ->
  Forall (fun e => AudioProcessor.isStart e = false) wes ->
  RTDContentScriptLife.starts content = [] ->
  Forall (fun e => RTDContentScriptLife.isStart e = false) ces ->
  let stopped := RTDContentScriptLife.stopDubbing content in
  snd (AudioProcessor.run wes (AudioProcessor.handleMessage data worklet)) = []
  /\ snd (RTDContentScriptLife.run ces stopped) = []
  /\ RTDContentScriptLife.isActive (fst (RTDContentScriptLife.run ces stopped)) = false
  /\ RTDContentScriptLife.websocket (fst (RTDContentScriptLife.run ces stopped)) = None.
Proof.
  intros Hstop Hwes Hs Hces stopped. split.
  - apply worklet_idle; [|done].
    unfold AudioProcessor.handleMessage. by rewrite Hstop.
  - destruct (stopDubbing_idle content) as (H1 & H2 & H3).
    apply content_idle; try done. subst stopped. by rewrite H3.
Qed.

Lemma nothing_sent_after_stop_witness :
  snd (AudioProcessor.run (AudioProcessor.sixteenQuanta 1)
         (AudioProcessor.handleMessage
            {| AudioProcessor.type := "stop"; AudioProcessor.size := Js.NaN |}
            AudioProcessor.constructor)) = []
  /\ snd (RTDContentScriptLife.run
            [RTDContentScriptLife.AudioData 0 ∅; RTDContentScriptLife.UpdateSettings ∅;
             RTDContentScriptLife.SocketClosed 0]
            (RTDContentScriptLife.stopDubbing
               (RTDContentScriptLife.mk true ∅ "netflix" (Some 0%nat)
                  [RTDContentScript.OPEN] []))) = [].
Proof.
  destruct (nothing_sent_after_stop
              {| AudioProcessor.type := "stop"; AudioProcessor.size := Js.NaN |}
              AudioProcessor.constructor (AudioProcessor.sixteenQuanta 1)
              (RTDContentScriptLife.mk true ∅ "netflix" (Some 0%nat)
                 [RTDContentScript.OPEN] [])
              [RTDContentScriptLife.AudioData 0 ∅; RTDContentScriptLife.UpdateSettings ∅;
               RTDContentScriptLife.SocketClosed 0]
              eq_refl) as (H1 & H2 & _).
  - unfold AudioProcessor.sixteenQuanta. apply Forall_app. split.
    + apply Forall_replicate. reflexivity.
    + repeat constructor.
  - reflexivity.
  - repeat constructor.
  - split; assumption.
Defined.

End StopSpec.

(** ** Voice detection *)

Module VoiceSpec.
Import AudioProcessor.

(** [detectVoice], with its monadic plumbing unfolded. *)
Lemma detectVoice_unfold this fftData :
  detectVoice this fftData
  = let e := energies this fftData in
    if Qeq_bool (totalEnergy e) 0 then (false, [binSizeDivisor fftData])
    else (Js.gtb (Js.div (midFreqEnergy e) (totalEnergy e)) (3 # 10)
          && Js.Qltb (1 # 100) (totalEnergy e),
          [binSizeDivisor fftData; totalEnergy e]).
Proof.
  unfold detectVoice, bind, divide, ret, energies. simpl.
  by destruct (Qeq_bool _ 0).
Qed.




End VoiceSpec.

(** ** The create-voice form *)

Module FormSpec.
Import VoiceManagementUI.

Section WithFile.
Context {File : Type}.
Implicit Types (f : Form File) (d : FormData File).

Lemma truthy_nonempty (s : jsstring) : truthy s = true <-> s <> [].
Proof. by destruct s. Qed.

Lemma appendFiles_app files : forall d,
  appendFiles files d = d ++ map (fun x => ("audio_files", Blob x)) files.
Proof.
  unfold appendFiles.
  induction files as [|x files IH]; intros d; simpl; [by rewrite app_nil_r|].
  rewrite IH. unfold append. by rewrite <- app_assoc.
Qed.

Lemma audioFiles_app d d' : audioFiles (d ++ d') = audioFiles d ++ audioFiles d'.
Proof.
  induction d as [|[k [s|x]] d IH]; simpl; [done|done|].
  destruct (String.eqb k "audio_files"); simpl; by rewrite IH.
Qed.

Lemma audioFiles_files (files : list File) :
  audioFiles (map (fun x => ("audio_files", Blob x)) files) = files.
Proof. induction files as [|x files IH]; simpl; [done|]. by rewrite IH. Qed.

(** The body of a request starts with the name and the speaker and
    carries the chosen files, all of them, in order, and no others. *)
Lemma buildFormData_carries f :
  buildFormData f !! 0%nat = Some ("name", Text (trim (nameInput f)))
  /\ buildFormData f !! 1%nat = Some ("speaker_id", Text (speakerSelect f))
  /\ audioFiles (buildFormData f) = samplesInput f.
Proof.
  unfold buildFormData. rewrite appendFiles_app, audioFiles_app, audioFiles_files.
  unfold append. repeat case_match; simpl; done.
Qed.

(** C7.  [submitCreateVoiceForm] issues a request exactly when the
    trimmed voice name is not empty, a speaker is selected and at least
    one audio sample is chosen.  The request is then the only effect, a
    POST whose body carries the trimmed name under [name], the selected
    speaker under [speaker_id] and every chosen file, in order, under
    [audio_files].  When one of the three conditions fails the only
    effect is an alert, and no request is issued. *)
Theorem create_voice_request f :
  let valid :=
    trim (nameInput f) <> [] /\ speakerSelect f <> [] /\ samplesInput f <> [] in
  ((exists e, e ∈ submitCreateVoiceForm f /\ isFetch e = true) <-> valid)
  /\ (valid ->
      submitCreateVoiceForm f
        = [Fetch "/api/voice-management/voice-clones" "POST" (buildFormData f)]
      /\ buildFormData f !! 0%nat = Some ("name", Text (trim (nameInput f)))
      /\ buildFormData f !! 1%nat = Some ("speaker_id", Text (speakerSelect f))
      /\ audioFiles (buildFormData f) = samplesInput f)
  /\ (~ valid -> exists message, submitCreateVoiceForm f = [Alert message]).
Proof.
  intros valid. subst valid. unfold submitCreateVoiceForm.
  destruct (truthy (trim (nameInput f))) eqn:En; simpl.
  2:{ assert (trim (nameInput f) = []) by (by destruct (trim (nameInput f))).
      split; [|split].
      - split; [|tauto]. intros (e & He & Hf).
        apply list_elem_of_singleton in He. by subst.
      - tauto.
      - eauto. }
  apply truthy_nonempty in En.
  destruct (isEmptyString (speakerSelect f)) eqn:Es; simpl.
  { assert (speakerSelect f = []) by (by destruct (speakerSelect f)).
    split; [|split].
    - split; [|tauto]. intros (e & He & Hf).
      apply list_elem_of_singleton in He. by subst.
    - tauto.
    - eauto. }
  assert (speakerSelect f <> []) by (intros E; by rewrite E in Es).
  destruct (Nat.eqb_spec (length (samplesInput f)) 0) as [El|El].
  { assert (samplesInput f = []) by (by destruct (samplesInput f)).
    split; [|split].
    - split; [|tauto]. intros (e & He & Hf).
      apply list_elem_of_singleton in He. by subst.
    - tauto.
    - eauto. }
  assert (samplesInput f <> []) by (intros E; by rewrite E in El).
  split; [|split].
  - split; [done|]. intros _. eexists. split; [apply list_elem_of_here|done].
  - intros _. split; [done|]. apply buildFormData_carries.
  - tauto.
Qed.

End WithFile.

Lemma create_voice_request_witness :
  submitCreateVoiceForm
    {| nameInput := units " Hero "; descriptionInput := [];
       speakerSelect := units "speaker_001"; actorSelect := [];
       samplesInput := ["a.wav"; "b.wav"] |}
  = [Fetch "/api/voice-management/voice-clones" "POST"
       [("name", Text (units "Hero")); ("speaker_id", Text (units "speaker_001"));
        ("audio_files", Blob "a.wav"); ("audio_files", Blob "b.wav")]]
  /\ exists message,
       submitCreateVoiceForm
         {| nameInput := units "   "; descriptionInput := [];
            speakerSelect := units "speaker_001"; actorSelect := [];
            samplesInput := ["a.wav"] |} = [Alert message].
Proof.
  split.
  - refine (proj1 (proj1 (proj2 (create_voice_request
      {| nameInput := units " Hero "; descriptionInput := [];
         speakerSelect := units "speaker_001"; actorSelect := [];
         samplesInput := ["a.wav"; "b.wav"] |})) _)).
    repeat split; discriminate.
  - refine (proj2 (proj2 (create_voice_request
      {| nameInput := units "   "; descriptionInput := [];
         speakerSelect := units "speaker_001"; actorSelect := [];
         samplesInput := ["a.wav"] |})) _).
    intros (H & _). by apply H.
Defined.

End FormSpec.

(** ** The Speaker Identifier *)

Module SpeakerSpec.
Import SpeakerIdentifier.

(** [Qsqrt] is exact on squares. *)
Lemma Qsqrt_square (q : Q) : (0 <= q)%Q -> (Qsqrt (q * q) == q)%Q.
Proof.
  destruct q as [n d]. unfold Qle, Qsqrt, Qeq, Qmult; simpl. intros Hn.
  replace (n * n * Z.pos (d * d)) with ((n * Z.pos d) * (n * Z.pos d)) by lia.
  rewrite Z.sqrt_square by lia. lia.
Qed.

Section WithSimilarity.
Variable similarity : Embedding -> Embedding -> Q.
Variable cfg : Config.

Lemma update_profile_id now e id p :
  speaker_id (update_profile cfg now e id p) = speaker_id p.
Proof. unfold update_profile. by case_match. Qed.

(** The best score is at least the first score and every score of the
    list. *)
Lemma best_score_ge (l : list (SpeakerProfile * Q)) : forall s0,
  (s0 <= best_score s0 l)%Q
  /\ Forall (fun c => (snd c <= best_score s0 l)%Q) l.
Proof.
  induction l as [|[p s] l IH]; intros s0; simpl; [split; [lra|constructor]|].
  destruct (IH (if Js.Qltb s0 s then s else s0)) as [H1 H2].
  destruct (Js.Qltb s0 s) eqn:E; [apply Qltb_lt in E|apply Qltb_ge in E].
  - split; [lra|]. by constructor.
  - split; [done|]. constructor; [simpl; lra|done].
Qed.

(** The best score is the score of someone. *)
Lemma best_score_in (l : list (SpeakerProfile * Q)) : forall s0,
  best_score s0 l = s0 \/ Exists (fun c => snd c = best_score s0 l) l.
Proof.
  induction l as [|[p s] l IH]; intros s0; simpl; [by left|].
  destruct (IH (if Js.Qltb s0 s then s else s0)) as [H|H].
  - destruct (Js.Qltb s0 s); [right; by constructor|by left].
  - right. by apply Exists_cons_tl.
Qed.

Lemma most_recent_in (l : list (SpeakerProfile * Q)) : forall c0,
  In (most_recent c0 l) (c0 :: l).
Proof.
  induction l as [|c l IH]; intros c0; simpl; [by left|].
  destruct (IH (if last_seen c0.1 <? last_seen c.1 then c else c0)) as [H|H].
  - rewrite <- H. destruct (last_seen c0.1 <? last_seen c.1); auto.
  - auto.
Qed.

(** With a tolerance that is not negative and at least one known
    profile, there is a best match: a known profile, scored by its
    similarity, within the tolerance of the best similarity, which no
    similarity exceeds. *)
Lemma best_match_spec e ps :
  (0 <= epsilon cfg)%Q -> ps <> [] ->
  exists top p,
    best_similarity similarity e ps = Some top
    /\ best_match similarity cfg e ps = Some (p, similarity e (embedding p))
    /\ In p ps
    /\ (top - similarity e (embedding p) <= epsilon cfg)%Q
    /\ Forall (fun p' => (similarity e (embedding p') <= top)%Q) ps
    /\ Exists (fun p' => similarity e (embedding p') = top) ps.
Proof.
  intros He Hne. destruct ps as [|p0 ps]; [done|].
  unfold best_similarity, best_match, scored. cbn [map].
  fold (scored similarity e ps).
  set (s0 := similarity e (embedding p0)).
  set (l := scored similarity e ps).
  set (top := best_score s0 l).
  destruct (best_score_ge l s0) as [Hge0 Hge].
  assert (Hall : Forall (fun p' => (similarity e (embedding p') <= top)%Q) (p0 :: ps)).
  { constructor; [done|]. subst l. unfold scored in Hge.
    rewrite Forall_fmap in Hge. exact Hge. }
  assert (Hex : Exists (fun p' => similarity e (embedding p') = top) (p0 :: ps)).
  { destruct (best_score_in l s0) as [H|H].
    - by constructor.
    - apply Exists_cons_tl. subst l. unfold scored in H.
      rewrite Exists_fmap in H. exact H. }
  assert (Hin : forall c, In c ((p0, s0) :: l) ->
                  In c.1 (p0 :: ps) /\ c.2 = similarity e (embedding c.1)).
  { intros c [<-|Hc]; [split; [by left|done]|].
    subst l. unfold scored in Hc. apply in_map_iff in Hc as (p' & <- & Hp').
    split; [by right|done]. }
  destruct (List.filter (fun c => Qle_bool (top - c.2) (epsilon cfg)) ((p0, s0) :: l))
    as [|c0 cs] eqn:Ef.
  - exfalso. apply Exists_exists in Hex as (p' & Hp' & Htop).
    assert (Hc : In (p', similarity e (embedding p'))
                   (List.filter (fun c => Qle_bool (top - c.2) (epsilon cfg))
                      ((p0, s0) :: l))).
    { apply filter_In. split.
      - apply list_elem_of_In in Hp'. destruct Hp' as [<-|Hp']; [by left|].
        right. subst l. unfold scored. apply in_map_iff. by exists p'.
      - simpl. apply Qle_bool_iff. rewrite Htop. lra. }
    fold s0 l top in Hc. rewrite Ef in Hc. done.
  - pose proof (most_recent_in cs c0) as Hm.
    rewrite <- Ef in Hm. apply filter_In in Hm as [Hm1 Hm2].
    apply Hin in Hm1 as [Hp Hs]. apply Qle_bool_iff in Hm2.
    destruct (most_recent c0 cs) as [p s]. simpl in *. subst s.
    exists top, p. repeat split; try done.
Qed.

(** C1, as the algorithm has it.  When the best match's similarity
    exceeds the threshold, that is when some known profile's similarity
    to the utterance does, a known profile's id is returned, that of a
    profile whose similarity is within the tolerance of the best, and no
    profile is created: the ids on record and the next id to mint are
    unchanged.  In particular, when no speaker is known yet and the
    second of two utterances has a similarity to the first that exceeds
    the threshold, both resolve to the same id and one profile exists
    afterwards. *)
Theorem match_above_threshold_reuses_id :
  (0 <= epsilon cfg)%Q ->
  (forall (now : Z) (st : Store) (e : Embedding),
     Exists (fun p => (threshold cfg < similarity e (embedding p))%Q) (profiles st) ->
     let r := identify similarity cfg now st (Some e) in
     exists p,
       In p (profiles st)
       /\ r.1.1 = Speaker (speaker_id p)
       /\ Forall (fun p' => (similarity e (embedding p')
                             <= similarity e (embedding p) + epsilon cfg)%Q)
            (profiles st)
       /\ map speaker_id (profiles r.2) = map speaker_id (profiles st)
       /\ next_id r.2 = next_id st)
  /\ (forall (e1 e2 : Embedding) (now1 now2 : Z),
        (threshold cfg < similarity e2 e1)%Q ->
        let first := identify similarity cfg now1 empty_store (Some e1) in
        let second := identify similarity cfg now2 first.2 (Some e2) in
        first.1.1 = second.1.1 /\ length (profiles second.2) = 1%nat).
Proof.
  intros He.
  assert (Hmatch : forall (now : Z) (st : Store) (e : Embedding),
     Exists (fun p => (threshold cfg < similarity e (embedding p))%Q) (profiles st) ->
     let r := identify similarity cfg now st (Some e) in
     exists p,
       In p (profiles st)
       /\ r.1.1 = Speaker (speaker_id p)
       /\ Forall (fun p' => (similarity e (embedding p')
                             <= similarity e (embedding p) + epsilon cfg)%Q)
            (profiles st)
       /\ map speaker_id (profiles r.2) = map speaker_id (profiles st)
       /\ next_id r.2 = next_id st).
  { intros now st e Hex r. subst r.
    assert (Hne : profiles st <> []).
    { intros E. rewrite E in Hex. by apply Exists_nil in Hex. }
    destruct (best_match_spec e (profiles st) He Hne)
      as (top & p & Hs & Hb & Hin & Htie & Hall & _).
    assert (Htop : (threshold cfg < top)%Q).
    { apply Exists_exists in Hex as (p' & Hp' & Hlt).
      rewrite Forall_forall in Hall. specialize (Hall p' Hp'). lra. }
    unfold identify. rewrite Hs, Hb.
    apply Qltb_lt in Htop. rewrite Htop. cbn [fst snd profiles next_id].
    exists p. split; [done|]. split; [done|]. split.
    - eapply Forall_impl; [exact Hall|]. intros p' Hp'. simpl in Hp'. lra.
    - split; [|done]. rewrite <- list_fmap_compose. apply list_fmap_ext.
      intros i x _. apply update_profile_id. }
  split; [exact Hmatch|].
  intros e1 e2 now1 now2 H12 first second.
  assert (Hf : first = (Speaker 0, 0%Q,
                        {| profiles := [{| speaker_id := 0; embedding := e1;
                                           last_seen := now1 |}];
                           next_id := 1 |})) by reflexivity.
  subst second. rewrite Hf. cbn [fst snd].
  destruct (Hmatch now2
              {| profiles := [{| speaker_id := 0; embedding := e1; last_seen := now1 |}];
                 next_id := 1 |} e2) as (p & Hin & H1 & _ & H2 & _).
  { constructor. exact H12. }
  destruct Hin as [<-|[]]. split; [by rewrite H1|].
  apply (f_equal length) in H2. by rewrite !length_map in H2.
Qed.

End WithSimilarity.

Lemma match_above_threshold_reuses_id_witness :
  (exists p,
     In p [{| speaker_id := 0; embedding := [1%Q; 0%Q]; last_seen := 0 |}]
     /\ (identify cosine_similarity default_config 7
           {| profiles := [{| speaker_id := 0; embedding := [1%Q; 0%Q]; last_seen := 0 |}];
              next_id := 1 |}
           (Some [24 # 25; 7 # 25]%Q)).1.1 = Speaker (speaker_id p))
  /\ let first := identify cosine_similarity default_config 1 empty_store
                    (Some [1%Q; 0%Q]) in
     let second := identify cosine_similarity default_config 2 first.2
                     (Some [24 # 25; 7 # 25]%Q) in
     first.1.1 = second.1.1 /\ length (profiles second.2) = 1%nat.
Proof.
  destruct (match_above_threshold_reuses_id cosine_similarity default_config)
    as [Hmatch Htwo]; [discriminate|].
  split.
  - destruct (Hmatch 7
                {| profiles := [{| speaker_id := 0; embedding := [1%Q; 0%Q];
                                   last_seen := 0 |}];
                   next_id := 1 |}
                [24 # 25; 7 # 25]%Q) as (p & Hin & Hid & _).
    + constructor. reflexivity.
    + exists p. split; [exact Hin|exact Hid].
  - apply (Htwo [1%Q; 0%Q] [24 # 25; 7 # 25]%Q 1 2). reflexivity.
Defined.

(** C1, counterexample.  One profile, of embedding (1, 0), is known.  The
    utterances (20/29, 21/29) and (24/25, 7/25), unit vectors both, have
    cosine similarity 627/725, above 0.8.  The first is at 20/29 from the
    known profile, below the threshold, and gets the new id 1; the second
    is at 24/25 from the known profile, its best match, and gets id 0. *)
Lemma similar_utterances_counterexample :
  let known := {| profiles := [{| speaker_id := 0; embedding := [1%Q; 0%Q];
                                  last_seen := 0 |}];
                  next_id := 1 |} in
  let u1 := [20 # 29; 21 # 29]%Q in
  let u2 := [24 # 25; 7 # 25]%Q in
  let first := identify cosine_similarity default_config 1 known (Some u1) in
  let second := identify cosine_similarity default_config 2 first.2 (Some u2) in
  Qeq_bool (cosine_similarity u1 u2) (627 # 725) = true
  /\ Qle_bool (8 # 10) (cosine_similarity u1 u2) = true
  /\ Qeq_bool (cosine_similarity u1 [1; 0]%Q) (20 # 29) = true
  /\ Qeq_bool (cosine_similarity u2 [1; 0]%Q) (24 # 25) = true
  /\ first.1.1 = Speaker 1
  /\ second.1.1 = Speaker 0.
Proof. vm_compute. repeat split. Qed.

End SpeakerSpec.

(** * Further properties *)

(** ** The stream of samples and the chunks cut from it *)

Module StreamSpec.
Import AudioProcessor AudioStream.
Import AudioProcessorSpec ChunkSpec.

Lemma chunkAudio_app (a b : list JsObject) :
  chunkAudio (a ++ b) = chunkAudio a ++ chunkAudio b.
Proof. unfold chunkAudio. by rewrite !flat_map_app. Qed.

Lemma preprocessAudio_app (a b : list Q) :
  preprocessAudio (a ++ b) = preprocessAudio a ++ preprocessAudio b.
Proof. unfold preprocessAudio. apply map_app. Qed.

Lemma chunkAudio_processBuffer g this :
  chunkAudio [processBuffer g this] = preprocessAudio (buffer this).
Proof.
  unfold chunkAudio, Js.getArr, processBuffer. simpl.
  rewrite app_nil_r. by simplify_map_eq.
Qed.

(** The loop of [process] neither loses nor repeats a sample. *)
Lemma processLoop_stream g inputChannel : forall i this outputChannel,
  Inv this -> isProcessing this = true ->
  let r := processLoop g inputChannel i this outputChannel in
  chunkAudio r.2 ++ preprocessAudio (pending r.1.1)
  = preprocessAudio (pending this ++ inputChannel)
  /\ Inv r.1.1 /\ isProcessing r.1.1 = true.
Proof.
  induction inputChannel as [|x rest IH]; intros i this out HI Hp; simpl.
  - by rewrite app_nil_r.
  - pose proof (bufferSample_processing g x this HI Hp) as [Hlt Heq].
    pose proof (Inv_bufferSample g x this HI) as HI1.
    pose proof (bufferSample_frame g x this) as (Hsz & Hp1 & _).
    destruct (bufferSample g x this) as [this1 msgs]. simpl in *.
    destruct (IH (S i) this1 (<[i:=x]> out) HI1 ltac:(congruence)) as (IH1 & IH2 & IH3).
    destruct (processLoop g rest (S i) this1 (<[i:=x]> out)) as [[this2 out2] more].
    simpl in *. split; [|done].
    rewrite chunkAudio_app, <- app_assoc, IH1.
    destruct HI as (Hlen & Hb & Hi).
    destruct (decide (Z.of_nat (bufferIndex this) + 1 = slots this)) as [Hfull|Hnot].
    + destruct (Heq Hfull) as (-> & _ & ->).
      rewrite chunkAudio_processBuffer. cbn [set_buffer buffer].
      rewrite <- preprocessAudio_app. f_equal. by rewrite <- app_assoc.
    + destruct (Hlt ltac:(lia)) as (-> & _ & ->).
      simpl. by rewrite <- app_assoc.
Qed.

(** Every chunk that the loop posts has [bufferSize] samples. *)
Lemma processLoop_chunk_length g inputChannel : forall i this outputChannel,
  Inv this -> isProcessing this = true ->
  let r := processLoop g inputChannel i this outputChannel in
  Forall (fun m => Z.of_nat (length (Js.getArr m "audioBuffer")) = slots this) r.2
  /\ bufferSize r.1.1 = bufferSize this.
Proof.
  induction inputChannel as [|x rest IH]; intros i this out HI Hp; simpl; [done|].
  pose proof (bufferSample_processing g x this HI Hp) as [Hlt Heq].
  pose proof (Inv_bufferSample g x this HI) as HI1.
  pose proof (bufferSample_frame g x this) as (Hsz & Hp1 & _).
  pose proof (bufferSample_slots g x this) as Hsl.
  destruct (bufferSample g x this) as [this1 msgs]. simpl in *.
  destruct (IH (S i) this1 (<[i:=x]> out) HI1 ltac:(congruence)) as (IH1 & IH2).
  destruct (processLoop g rest (S i) this1 (<[i:=x]> out)) as [[this2 out2] more].
  simpl in *. rewrite Hsz, Hsl in *. split; [|done].
  apply Forall_app. split; [|done].
  destruct HI as (Hlen & Hb & Hi).
  destruct (decide (Z.of_nat (bufferIndex this) + 1 = slots this)) as [Hfull|Hnot].
  - destruct (Heq Hfull) as (-> & _ & _). constructor; [|constructor].
    unfold Js.getArr, processBuffer. simplify_map_eq.
    unfold preprocessAudio, pending, slots in *.
    rewrite length_map, length_app, length_take. simpl. lia.
  - destruct (Hlt ltac:(lia)) as (-> & _ & _). constructor.
Qed.

(** One call of [process], on any frame. *)
Lemma process_stream g this inputs outputs :
  Inv this -> isProcessing this = true ->
  let r := process g this inputs outputs in
  chunkAudio (posted r) ++ preprocessAudio (pending (this' r))
  = preprocessAudio (pending this ++ frameSamples inputs outputs)
  /\ Forall (fun m => Z.of_nat (length (Js.getArr m "audioBuffer")) = slots this)
       (posted r)
  /\ Inv (this' r) /\ isProcessing (this' r) = true
  /\ bufferSize (this' r) = bufferSize this.
Proof.
  intros HI Hp. unfold process, frameSamples.
  destruct (inputs !! 0%nat) as [[|inputChannel input]|]; simpl;
    try (by rewrite app_nil_r).
  destruct (outputs !! 0%nat) as [output|]; simpl; [|by rewrite app_nil_r].
  set (this1 := if Qeq_bool _ _ then _ else _).
  assert (H1 : Inv this1 /\ isProcessing this1 = true /\ pending this1 = pending this
               /\ bufferSize this1 = bufferSize this /\ slots this1 = slots this).
  { subst this1. by destruct (Qeq_bool _ _). }
  destruct H1 as (HI1 & Hp1 & Hpend & Hsz & Hsl).
  destruct output as [|outputChannel output]; simpl.
  - destruct inputChannel; simpl; rewrite app_nil_r;
      (split; [by rewrite <- Hpend|]); (split; [constructor|]);
      (split; [exact HI1|]); (split; [exact Hp1|exact Hsz]).
  - pose proof (processLoop_stream g inputChannel 0 this1 outputChannel HI1 Hp1) as Hs.
    pose proof (processLoop_chunk_length g inputChannel 0 this1 outputChannel HI1 Hp1) as Hl.
    destruct (processLoop g inputChannel 0 this1 outputChannel) as [[this2 out2] msgs].
    simpl in *. rewrite Hpend, Hsz, Hsl in *. destruct Hs as (Hs1 & Hs2 & Hs3).
    destruct Hl as (Hl1 & Hl2). done.
Qed.

(** Under the invariant the number of slots is [bufferSize]. *)
Lemma slots_bufferSize this this' :
  Inv this -> Inv this' -> bufferSize this' = bufferSize this -> slots this' = slots this.
Proof.
  intros (H & _) (H' & _) E. rewrite H, H' in E. unfold Js.ofZ, inject_Z in E.
  by injection E.
Qed.

Lemma run_stream (es : list Event) : forall (this : t),
  Inv this -> isProcessing this = true ->
  Forall (fun e => isRender e = true) es ->
  chunkAudio (run es this).2 ++ preprocessAudio (pending (run es this).1)
  = preprocessAudio (pending this ++ flat_map eventSamples es)
  /\ Forall (fun m => Z.of_nat (length (Js.getArr m "audioBuffer")) = slots this)
       (run es this).2.
Proof.
  induction es as [|e es IH]; intros this HI Hp Hes; simpl.
  - by rewrite app_nil_r.
  - inversion Hes as [|? ? He Hes']; subst.
    destruct e as [data|g inputs outputs]; [done|]. simpl.
    destruct (process_stream g this inputs outputs HI Hp) as (H1 & H2 & H3 & H4 & H5).
    destruct (IH _ H3 H4 Hes') as (IH1 & IH2).
    destruct (run es (this' (process g this inputs outputs))) as [this2 more].
    simpl in *. split.
    + rewrite chunkAudio_app, <- app_assoc, IH1.
      rewrite (preprocessAudio_app (pending _)), app_assoc, H1.
      by rewrite <- preprocessAudio_app, <- app_assoc.
    + apply Forall_app. split; [done|].
      by rewrite <- (slots_bufferSize this _ HI H3 H5).
Qed.

(** X1.  Whatever the frames are that carry a stream of samples to a
    processor with processing enabled, the chunks it posts, laid end to
    end and followed by the samples still pending, are the preprocessed
    stream, preceded by what was pending before: no sample is lost,
    repeated or moved.  Every chunk has exactly [bufferSize] samples, so
    the chunks are the successive [bufferSize]-sample blocks of the
    stream. *)
Theorem chunks_are_the_stream (es : list Event) (this : t) :
  Inv this -> isProcessing this = true ->
  Forall (fun e => isRender e = true) es ->
  chunkAudio (run es this).2 ++ preprocessAudio (pending (run es this).1)
  = preprocessAudio (pending this ++ flat_map eventSamples es)
  /\ Forall (fun m =>
               Js.ofZ (Z.of_nat (length (Js.getArr m "audioBuffer"))) = bufferSize this)
       (run es this).2.
Proof.
  intros HI Hp Hes. destruct (run_stream es this HI Hp Hes) as (H1 & H2).
  split; [exact H1|]. destruct HI as (Hsz & _). rewrite Hsz.
  eapply Forall_impl; [exact H2|]. by intros m ->.
Qed.

Lemma chunks_are_the_stream_witness :
  chunkAudio (run (sixteenQuanta 1) constructor).2
    ++ preprocessAudio (pending (run (sixteenQuanta 1) constructor).1)
  = preprocessAudio (pending constructor ++ flat_map eventSamples (sixteenQuanta 1)).
Proof.
  refine (proj1 (chunks_are_the_stream (sixteenQuanta 1) constructor
                   Inv_constructor eq_refl _)).
  unfold sixteenQuanta. apply Forall_app. split.
  - by apply Forall_replicate.
  - by repeat constructor.
Defined.

(** How many chunks a call of [process] posts, and what stays pending. *)
Lemma process_count g this inputs outputs :
  Inv this -> isProcessing this = true ->
  let r := process g this inputs outputs in
  let total := Z.of_nat (bufferIndex this)
               + Z.of_nat (length (frameSamples inputs outputs)) in
  Z.of_nat (length (posted r)) = total / slots this
  /\ Z.of_nat (bufferIndex (this' r)) = total mod slots this.
Proof.
  intros HI Hp. pose proof HI as (Hlen & Hb & Hi).
  assert (Hnone : Z.of_nat 0 = (Z.of_nat (bufferIndex this) + Z.of_nat 0) / slots this
                  /\ Z.of_nat (bufferIndex this)
                     = (Z.of_nat (bufferIndex this) + Z.of_nat 0) mod slots this).
  { rewrite Z.add_0_r, Z.div_small, Z.mod_small by lia. done. }
  unfold process, frameSamples.
  destruct (inputs !! 0%nat) as [[|inputChannel input]|]; simpl; try exact Hnone.
  destruct (outputs !! 0%nat) as [output|]; simpl; [|exact Hnone].
  set (this1 := if Qeq_bool _ _ then _ else _).
  assert (H1 : Inv this1 /\ isProcessing this1 = true
               /\ bufferIndex this1 = bufferIndex this
               /\ slots this1 = slots this).
  { subst this1. by destruct (Qeq_bool _ _). }
  destruct H1 as (HI1 & Hp1 & Hidx & Hsl).
  destruct output as [|outputChannel output]; simpl.
  - destruct inputChannel; simpl; rewrite ?Hidx; exact Hnone.
  - pose proof (processLoop_count g inputChannel 0 this1 outputChannel HI1 Hp1) as Hc.
    destruct (processLoop g inputChannel 0 this1 outputChannel) as [[this2 out2] msgs].
    simpl in *. rewrite Hidx, Hsl in Hc. by destruct Hc as (Hc1 & Hc2 & _).
Qed.

Lemma run_count (es : list Event) : forall (this : t),
  Inv this -> isProcessing this = true ->
  Forall (fun e => isRender e = true) es ->
  let total := Z.of_nat (bufferIndex this)
               + Z.of_nat (length (flat_map eventSamples es)) in
  Z.of_nat (length (run es this).2) = total / slots this
  /\ Z.of_nat (bufferIndex (run es this).1) = total mod slots this.
Proof.
  induction es as [|e es IH]; intros this HI Hp Hes; simpl.
  - destruct HI as (Hlen & Hb & Hi).
    rewrite Z.add_0_r, Z.div_small, Z.mod_small by lia. done.
  - inversion Hes as [|? ? He Hes']; subst.
    destruct e as [data|g inputs outputs]; [done|]. simpl.
    destruct (process_stream g this inputs outputs HI Hp) as (_ & _ & H3 & H4 & H5).
    destruct (process_count g this inputs outputs HI Hp) as (C1 & C2).
    destruct (IH _ H3 H4 Hes') as (IH1 & IH2).
    pose proof (slots_bufferSize this _ HI H3 H5) as Hsl.
    destruct (run es (this' (process g this inputs outputs))) as [this2 more].
    simpl in *. rewrite Hsl, C2 in *. destruct HI as (Hlen & Hb & Hi).
    rewrite !length_app, !Nat2Z.inj_add, Z.add_assoc.
    set (k := Z.of_nat (bufferIndex this) + Z.of_nat (length (frameSamples inputs outputs))) in *.
    set (n := Z.of_nat (length (flat_map eventSamples es))) in *.
    set (B := slots this) in *.
    assert (E : (k + n) / B = k / B + (k mod B + n) / B
                /\ (k + n) mod B = (k mod B + n) mod B).
    { replace (k + n) with (k mod B + n + (k / B) * B)
        by (pose proof (Z.div_mod k B); lia).
      rewrite Z.div_add, Z.mod_add by lia. split; lia. }
    destruct E as [E1 E2]. rewrite E1, E2. split; lia.
Qed.

(** A stopped processor buffers nothing. *)
Lemma process_idle_buffer g this inputs outputs :
  isProcessing this = false ->
  let r := process g this inputs outputs in
  posted r = [] /\ isProcessing (this' r) = false
  /\ buffer (this' r) = buffer this
  /\ bufferIndex (this' r) = bufferIndex this
  /\ bufferSize (this' r) = bufferSize this.
Proof.
  intros Hp. unfold process.
  destruct (inputs !! 0%nat) as [[|inputChannel input]|]; simpl; try done.
  destruct (outputs !! 0%nat) as [output|]; simpl; [|done].
  set (this1 := if Qeq_bool _ _ then _ else _).
  assert (H1 : isProcessing this1 = false /\ buffer this1 = buffer this
               /\ bufferIndex this1 = bufferIndex this
               /\ bufferSize this1 = bufferSize this).
  { subst this1. by destruct (Qeq_bool _ _). }
  destruct H1 as (Hp1 & Hb & Hidx & Hsz).
  destruct output as [|outputChannel output]; simpl.
  - by destruct inputChannel.
  - destruct (processLoop_idle g inputChannel 0 this1 outputChannel Hp1) as [H1 H2].
    destruct (processLoop g inputChannel 0 this1 outputChannel) as [[this2 out2] msgs].
    simpl in *. by subst.
Qed.

Lemma run_idle_buffer (es : list Event) : forall (this : t),
  isProcessing this = false ->
  Forall (fun e => isRender e = true) es ->
  (run es this).2 = [] /\ isProcessing (run es this).1 = false
  /\ buffer (run es this).1 = buffer this
  /\ bufferIndex (run es this).1 = bufferIndex this
  /\ bufferSize (run es this).1 = bufferSize this.
Proof.
  induction es as [|e es IH]; intros this Hp Hes; simpl; [done|].
  inversion Hes as [|? ? He Hes']; subst.
  destruct e as [data|g inputs outputs]; [done|]. simpl.
  destruct (process_idle_buffer g this inputs outputs Hp) as (H1 & H2 & H3 & H4 & H5).
  destruct (IH _ H2 Hes') as (I1 & I2 & I3 & I4 & I5).
  destruct (run es (this' (process g this inputs outputs))) as [this2 more].
  simpl in *. rewrite H1, I1. repeat split; congruence.
Qed.

Lemma run_app (es1 es2 : list Event) (this : t) :
  run (es1 ++ es2) this
  = ((run es2 (run es1 this).1).1, (run es1 this).2 ++ (run es2 (run es1 this).1).2).
Proof.
  revert this. induction es1 as [|e es1 IH]; intros this; simpl.
  - by destruct (run es2 this).
  - destruct (step e this) as [this1 msgs]. rewrite IH.
    destruct (run es1 this1) as [this2 more]. simpl. by rewrite app_assoc.
Qed.

(** X2.  Between a stop and the next start the processor posts nothing and
    buffers nothing, whatever is rendered, and the samples that were
    pending at the stop are still pending, in place, after the start: they
    will open the first chunk posted after the restart. *)
Theorem stop_keeps_pending_samples (stop start : PortData) (es : list Event) (this : t) :
  type stop = "stop" -> type start = "start" ->
  Forall (fun e => isRender e = true) es ->
  let r := run (Message stop :: es ++ [Message start]) this in
  r.2 = []
  /\ buffer r.1 = buffer this /\ bufferIndex r.1 = bufferIndex this
  /\ bufferSize r.1 = bufferSize this /\ pending r.1 = pending this
  /\ isProcessing r.1 = true.
Proof.
  intros Hstop Hstart Hes r. subst r.
  change (Message stop :: es ++ [Message start])
    with ([Message stop] ++ es ++ [Message start]).
  rewrite !run_app. simpl.
  assert (H0 : handleMessage stop this = set_isProcessing false this).
  { unfold handleMessage. by rewrite Hstop. }
  rewrite H0.
  destruct (run_idle_buffer es (set_isProcessing false this) eq_refl Hes)
    as (H1 & H2 & H3 & H4 & H5).
  rewrite H1. unfold handleMessage, pending. rewrite Hstart. simpl in *.
  by rewrite H3, H4, H5.
Qed.

Lemma stop_keeps_pending_samples_witness :
  let r := run (Message {| type := "stop"; size := Js.NaN |}
                  :: sixteenQuanta 1 ++ [Message {| type := "start"; size := Js.NaN |}])
             (set_bufferIndex 5 constructor) in
  r.2 = [] /\ bufferIndex r.1 = 5%nat.
Proof.
  destruct (stop_keeps_pending_samples {| type := "stop"; size := Js.NaN |}
              {| type := "start"; size := Js.NaN |} (sixteenQuanta 1)
              (set_bufferIndex 5 constructor) eq_refl eq_refl)
    as (H1 & _ & H3 & _).
  - unfold sixteenQuanta. apply Forall_app. split.
    + by apply Forall_replicate.
    + by repeat constructor.
  - split; [exact H1|exact H3].
Defined.

(** X3.  After a set_buffer_size message with an integer size, with
    processing enabled, nothing is posted until as many samples as the
    new [bufferSize] have been rendered, however they are spread over
    frames; the chunk posted then is the single one, and it holds exactly
    those samples, preprocessed: what was pending before the message is
    in no chunk. *)
Theorem first_chunk_after_resize (n : Z) (data : PortData) (es : list Event) (this : t) :
  type data = "set_buffer_size" -> size data = Js.ofZ n ->
  isProcessing this = true ->
  Forall (fun e => isRender e = true) es ->
  let resized := handleMessage data this in
  let stream := flat_map eventSamples es in
  bufferSize resized = Js.ofZ (Z.max 1024 (Z.min 8192 n))
  /\ (Z.of_nat (length stream) < Z.max 1024 (Z.min 8192 n) -> (run es resized).2 = [])
  /\ (Z.of_nat (length stream) = Z.max 1024 (Z.min 8192 n) ->
      map (fun m => Js.getArr m "audioBuffer") (run es resized).2
      = [preprocessAudio stream]).
Proof.
  intros Ht Hn Hp Hes resized stream.
  assert (Hr : resized = updateBufferSize (Js.ofZ n) this).
  { subst resized. unfold handleMessage. rewrite Ht, Hn. done. }
  assert (HI : Inv resized) by (rewrite Hr; apply Inv_updateBufferSize).
  assert (Hp' : isProcessing resized = true) by (by rewrite Hr).
  destruct (updateBufferSize_ofZ n this) as (Hbs & _ & Hsz & Hidx).
  rewrite <- Hr in Hbs, Hsz, Hidx.
  destruct (run_count es resized HI Hp' Hes) as (C1 & C2).
  destruct (run_stream es resized HI Hp' Hes) as (S1 & S2).
  fold stream in C1, C2, S1. rewrite Hidx, Hsz in *. simpl in C1, C2.
  assert (Hpend : pending resized = []) by (unfold pending; by rewrite Hidx).
  rewrite Hpend in S1. simpl in S1.
  split; [exact Hbs|]. split; intros Hl.
  - rewrite Z.div_small in C1 by lia. by destruct ((run es resized).2).
  - rewrite Hl, Z.div_same in C1 by lia. rewrite Hl, Z.mod_same in C2 by lia.
    destruct ((run es resized).2) as [|m [|m' ms]]; simpl in C1; try lia.
    assert (Hp0 : pending (run es resized).1 = []).
    { unfold pending. destruct (bufferIndex (run es resized).1); [done|lia]. }
    rewrite Hp0 in S1. unfold chunkAudio in S1. simpl in S1.
    rewrite !app_nil_r in S1. simpl. by rewrite S1.
Qed.

Lemma first_chunk_after_resize_witness :
  map (fun m => Js.getArr m "audioBuffer")
    (run (replicate 8 (quantum 1))
       (handleMessage {| type := "set_buffer_size"; size := Js.ofZ 0 |} constructor)).2
  = [preprocessAudio (flat_map eventSamples (replicate 8 (quantum 1)))].
Proof.
  refine (proj2 (proj2 (first_chunk_after_resize 0
                   {| type := "set_buffer_size"; size := Js.ofZ 0 |}
                   (replicate 8 (quantum 1)) constructor eq_refl eq_refl eq_refl _)) _).
  - by apply Forall_replicate.
  - reflexivity.
Defined.






(** The messages of the loop are built from the state the loop started in,
    as far as the sample rate goes. *)
Lemma processLoop_messages g inputChannel : forall i this outputChannel,
  Forall (fun m => exists st, m = processBuffer g st /\ sampleRate st = sampleRate this)
    (processLoop g inputChannel i this outputChannel).2.
Proof.
  induction inputChannel as [|x rest IH]; intros i this out; simpl; [constructor|].
  pose proof (bufferSample_frame g x this) as (_ & _ & Hsr & _).
  assert (Hm : Forall (fun m => exists st, m = processBuffer g st
                                           /\ sampleRate st = sampleRate this)
                 (bufferSample g x this).2).
  { unfold bufferSample. destruct (isProcessing this); [|constructor].
    cbn [set_buffer set_bufferIndex bufferSize bufferIndex].
    destruct (Js.geb _ _); simpl; [|constructor].
    constructor; [|constructor]. eexists. split; [reflexivity|done]. }
  destruct (bufferSample g x this) as [this1 msgs]. simpl in *.
  specialize (IH (S i) this1 (<[i:=x]> out)).
  destruct (processLoop g rest (S i) this1 (<[i:=x]> out)) as [[this2 out2] more].
  simpl in *. apply Forall_app. split; [done|].
  eapply Forall_impl; [exact IH|]. intros m (st & -> & Hst). exists st. split; congruence.
Qed.

(** X4.  Every message that a call of [process] posts is an audio_chunk
    with exactly the properties type, audioBuffer, sampleRate, level and
    timestamp; its sampleRate is the sample rate of the audio context at
    the call, also when the processor's own was stale, and its timestamp
    is the context time of the call in milliseconds, the same for all
    chunks of one call. *)
Theorem posted_chunk_metadata (g : Globals) (this : t)
    (inputs outputs : list (list (list Q))) :
  Forall (fun m : JsObject =>
            dom m = ({[ "type"; "audioBuffer"; "sampleRate"; "level"; "timestamp" ]}
                     : gset string)
            /\ m !! "type" = Some (Js.Str "audio_chunk")
            /\ m !! "timestamp" = Some (Js.Num (Js.Fin (g_currentTime g * 1000)))
            /\ exists q, m !! "sampleRate" = Some (Js.Num (Js.Fin q))
                         /\ (q == g_sampleRate g)%Q)
    (posted (process g this inputs outputs)).
Proof.
  unfold process.
  destruct (inputs !! 0%nat) as [[|inputChannel input]|]; simpl; try constructor.
  destruct (outputs !! 0%nat) as [output|]; simpl; [|constructor].
  set (this1 := if Qeq_bool _ _ then _ else _).
  assert (Hsr : (sampleRate this1 == g_sampleRate g)%Q).
  { subst this1. destruct (Qeq_bool _ _) eqn:E; [by apply Qeq_bool_iff|done]. }
  destruct output as [|outputChannel output]; simpl.
  - destruct inputChannel; constructor.
  - pose proof (processLoop_messages g inputChannel 0 this1 outputChannel) as Hm.
    destruct (processLoop g inputChannel 0 this1 outputChannel) as [[this2 out2] msgs].
    simpl in *. eapply Forall_impl; [exact Hm|].
    intros m (st & -> & Hst). unfold processBuffer.
    split; [rewrite !dom_insert_L, dom_empty_L; set_solver|].
    split; [by simplify_map_eq|]. split; [by simplify_map_eq|].
    exists (sampleRate st). split; [by simplify_map_eq|]. by rewrite Hst.
Qed.

End StreamSpec.

(** ** What a call of [process] leaves alone *)

Module FrameSpec.
Import AudioProcessor AudioStream.
Import PassThroughSpec.

(** The loop does not touch the output beyond the samples it visits. *)
Lemma processLoop_above g inputChannel : forall i this outputChannel j,
  (i + length inputChannel <= j)%nat ->
  (processLoop g inputChannel i this outputChannel).1.2 !! j = outputChannel !! j.
Proof.
  induction inputChannel as [|x rest IH]; intros i this out j Hj; simpl; [done|].
  destruct (bufferSample g x this) as [this1 msgs].
  specialize (IH (S i) this1 (<[i:=x]> out) j).
  destruct (processLoop g rest (S i) this1 (<[i:=x]> out)) as [[this2 out2] more].
  simpl in *. rewrite IH by lia. apply list_lookup_insert_ne. lia.
Qed.

(** The case of a call that writes nothing. *)
Ltac unchanged :=
  simpl; split; [done|]; split; [done|];
  let output := fresh "output" in
  let Ho := fresh "Ho" in
  intros output Ho;
  first
    [ discriminate Ho
    | exists output; split; [congruence|]; split; [done|]; split; [done|];
      let oc := fresh "oc" in
      let Hoc := fresh "Hoc" in
      intros oc Hoc; exists oc; done ].

(** X5.  A call of [process] writes nowhere but to the first channel of
    the first output, and there only to the indices of the samples it
    reads: the other outputs and channels, and the samples of that channel
    beyond the length of the input, are what they were, and no array
    changes its length.  Without an input, or without a first output
    channel, nothing is written at all. *)
Theorem process_writes_first_channel_only (g : Globals) (this : t)
    (inputs outputs : list (list (list Q))) :
  let r := process g this inputs outputs in
  length (outputs' r) = length outputs
  /\ (forall j, j <> 0%nat -> outputs' r !! j = outputs !! j)
  /\ (forall output, outputs !! 0%nat = Some output ->
        exists output',
          outputs' r !! 0%nat = Some output'
          /\ length output' = length output
          /\ (forall c, c <> 0%nat -> output' !! c = output !! c)
          /\ (forall outputChannel, output !! 0%nat = Some outputChannel ->
                exists outputChannel',
                  output' !! 0%nat = Some outputChannel'
                  /\ length outputChannel' = length outputChannel
                  /\ (forall i, (length (frameSamples inputs outputs) <= i)%nat ->
                        outputChannel' !! i = outputChannel !! i))).
Proof.
  unfold process, frameSamples.
  destruct (inputs !! 0%nat) as [[|inputChannel input]|]; simpl; try unchanged.
  destruct (outputs !! 0%nat) as [output|] eqn:Ho; simpl; [|unchanged].
  set (this1 := if Qeq_bool _ _ then _ else _).
  destruct output as [|outputChannel output]; simpl.
  - destruct inputChannel; unchanged.
  - pose proof (processLoop_above g inputChannel 0 this1 outputChannel) as Ha.
    pose proof (processLoop_length g inputChannel 0 this1 outputChannel) as Hl.
    destruct (processLoop g inputChannel 0 this1 outputChannel) as [[this2 out2] msgs].
    simpl in *. split; [by rewrite length_insert|].
    split; [intros j Hj; by apply list_lookup_insert_ne|].
    intros output0 E. inversion E; subst output0.
    exists (out2 :: output). split.
    { apply list_lookup_insert_eq. by eapply lookup_lt_Some. }
    split; [done|]. split; [by intros [|c] Hc|].
    intros oc E'. inversion E'; subst oc. exists out2. done.
Qed.

Lemma process_writes_first_channel_only_witness :
  exists output',
    outputs' (process {| g_sampleRate := 48000; g_currentTime := 0 |} constructor
                [[[1 # 2]; [1 # 3]]] [[[7; 7; 7]; [9; 9; 9]]]%Q) !! 0%nat = Some output'
    /\ output' !! 1%nat = Some [9; 9; 9]%Q
    /\ exists outputChannel',
         output' !! 0%nat = Some outputChannel'
         /\ outputChannel' !! 2%nat = Some 7%Q.
Proof.
  destruct (process_writes_first_channel_only
              {| g_sampleRate := 48000; g_currentTime := 0 |} constructor
              [[[1 # 2]; [1 # 3]]] [[[7; 7; 7]; [9; 9; 9]]]%Q)
    as (_ & _ & H).
  destruct (H [[7; 7; 7]; [9; 9; 9]]%Q eq_refl) as (output' & H1 & _ & H3 & H4).
  exists output'. split; [exact H1|]. split; [exact (H3 1%nat ltac:(discriminate))|].
  destruct (H4 [7; 7; 7]%Q eq_refl) as (oc' & H5 & _ & H7).
  exists oc'. split; [exact H5|]. exact (H7 2%nat ltac:(simpl; lia)).
Defined.

End FrameSpec.

(** ** The compressor and the level, in general *)

Module DynamicsSpec.
Import AudioProcessor.
Import CompressorSpec.









End DynamicsSpec.

(** ** The spectrum *)

Module SpectrumSpec.
Import AudioProcessor AudioStream.

Section WithMath.
Variables (cos sin sqrt : Q -> Q) (PI : Q).

Abbreviation simpleFFT := (simpleFFT cos sin sqrt PI).
Abbreviation bin := (bin cos sin sqrt PI).

(** Storing the bins one after the other, the stores beyond the array
    being dropped. *)
Lemma store_bins (f : nat -> Q) (m : nat) : forall (n : nat) (fftData : list Q),
  length fftData = n ->
  foldl (fun fftData k => <[k := f k]> fftData) fftData (seq 0 m)
  = map f (seq 0 (min m n)) ++ drop m fftData.
Proof.
  induction m as [|m IH]; intros n fftData Hn.
  - simpl. by rewrite drop_0.
  - rewrite seq_S, foldl_app. cbn [foldl Nat.add]. rewrite (IH n fftData Hn).
    destruct (decide (m < n)%nat) as [Hlt|Hge].
    + replace (min (S m) n) with (S (min m n)) by lia.
      replace (min m n) with m by lia.
      rewrite seq_S, map_app. simpl.
      assert (Hd : exists x, drop m fftData = x :: drop (S m) fftData).
      { destruct (lookup_lt_is_Some_2 fftData m ltac:(lia)) as [x Hx].
        exists x. by apply drop_S. }
      destruct Hd as [x Hd]. rewrite Hd.
      rewrite insert_app_r_alt by (rewrite length_map, length_seq; lia).
      rewrite length_map, length_seq, Nat.sub_diag. simpl.
      by rewrite <- app_assoc.
    + replace (min (S m) n) with (min m n) by lia.
      rewrite list_insert_ge; [|rewrite length_app, length_map, length_seq, length_drop; lia].
      f_equal. rewrite !drop_ge by lia. done.
Qed.

Lemma simpleFFT_bins (buffer : list Q) :
  simpleFFT buffer = map (bin buffer) (seq 0 (Z.to_nat (fftSize buffer / 2))).
Proof.
  unfold AudioStream.simpleFFT. cbv zeta.
  assert (H0 : 0 <= fftSize buffer) by (unfold fftSize; lia).
  rewrite (store_bins _ _ (Z.to_nat (fftSize buffer / 2)))
    by (unfold Js.Float32Array; apply length_replicate).
  assert (Hle : (Z.to_nat (fftSize buffer / 2) <= Z.to_nat ((fftSize buffer + 1) / 2))%nat).
  { apply Z2Nat.inj_le; try (apply Z.div_pos; lia).
    apply Z.div_le_mono; lia. }
  rewrite Nat.min_r by lia.
  rewrite drop_ge; [by rewrite app_nil_r|].
  unfold Js.Float32Array. rewrite length_replicate. lia.
Qed.

Lemma fftSize_take (a b : list Q) :
  take 256 a = take 256 b -> fftSize a = fftSize b.
Proof.
  intros H. apply (f_equal length) in H. rewrite !length_take in H.
  unfold fftSize. lia.
Qed.

Lemma bin_take (a b : list Q) (k : nat) :
  take 256 a = take 256 b -> bin a k = bin b k.
Proof.
  intros H. unfold AudioStream.bin. cbv zeta. rewrite (fftSize_take a b H).
  assert (Ht : take (Z.to_nat (fftSize b)) a = take (Z.to_nat (fftSize b)) b).
  { assert (Hle : (Z.to_nat (fftSize b) <= 256)%nat) by (unfold fftSize; lia).
    transitivity (take (Z.to_nat (fftSize b)) (take 256 a));
      [by rewrite take_take, Nat.min_l by lia|].
    rewrite H. by rewrite take_take, Nat.min_l by lia. }
  by rewrite Ht.
Qed.

(** X9.  Whatever the sine, cosine and square root are, [simpleFFT]
    returns as many bins as half the smaller of the buffer's length and
    256, rounded down, so never more than 128 and none for a buffer of
    fewer than two samples; bin [k] is the value computed for [k]; and
    the result depends on the first 256 samples of the buffer only:
    buffers that agree there have the same spectrum. *)
Theorem simpleFFT_bins_and_window (buffer : list Q) :
  Z.of_nat (length (simpleFFT buffer)) = Z.min (Z.of_nat (length buffer)) 256 / 2
  /\ (length (simpleFFT buffer) <= 128)%nat
  /\ ((length buffer < 2)%nat -> simpleFFT buffer = [])
  /\ (forall k, (k < length (simpleFFT buffer))%nat ->
        simpleFFT buffer !! k = Some (bin buffer k))
  /\ (forall other, take 256 other = take 256 buffer ->
        simpleFFT other = simpleFFT buffer).
Proof.
  assert (H0 : 0 <= fftSize buffer <= 256) by (unfold fftSize; lia).
  assert (Hlen : Z.of_nat (length (simpleFFT buffer)) = fftSize buffer / 2).
  { rewrite simpleFFT_bins, length_map, length_seq.
    rewrite Z2Nat.id; [done|]. apply Z.div_pos; lia. }
  split; [exact Hlen|]. split.
  { assert (fftSize buffer / 2 <= 128) by (apply Z.div_le_upper_bound; lia). lia. }
  split.
  { intros Hs. apply length_zero_iff_nil.
    assert (fftSize buffer / 2 = 0); [|lia].
    apply Z.div_small. unfold fftSize. lia. }
  split.
  - intros k Hk. rewrite simpleFFT_bins in *.
    rewrite length_map, length_seq in Hk.
    rewrite list_lookup_fmap, lookup_seq_lt by done. done.
  - intros other Ht. rewrite !simpleFFT_bins, (fftSize_take other buffer Ht).
    apply map_ext. intros k. by apply bin_take.
Qed.

End WithMath.

Lemma simpleFFT_bins_and_window_witness :
  simpleFFT (fun _ => 1%Q) (fun _ => 0%Q) (fun x => x) 3 [1 # 2]%Q = []
  /\ simpleFFT (fun _ => 1%Q) (fun _ => 0%Q) (fun x => x) 3 [1; 2; 3; 4; 5]%Q !! 1%nat
     = Some (bin (fun _ => 1%Q) (fun _ => 0%Q) (fun x => x) 3 [1; 2; 3; 4; 5]%Q 1)
  /\ simpleFFT (fun _ => 1%Q) (fun _ => 0%Q) (fun x => x) 3 (replicate 256 1%Q ++ [5%Q])
     = simpleFFT (fun _ => 1%Q) (fun _ => 0%Q) (fun x => x) 3 (replicate 256 1%Q).
Proof.
  split; [|split].
  - apply (proj1 (proj2 (proj2 (simpleFFT_bins_and_window _ _ _ _ [1 # 2]%Q)))).
    simpl. lia.
  - apply (proj1 (proj2 (proj2 (proj2
             (simpleFFT_bins_and_window _ _ _ _ [1; 2; 3; 4; 5]%Q))))).
    vm_compute. lia.
  - apply (proj2 (proj2 (proj2 (proj2
             (simpleFFT_bins_and_window _ _ _ _ (replicate 256 1%Q)))))).
    reflexivity.
Defined.

(** X10.  Analysing a buffer that the processor holds, in any state that
    keeps its invariant, yields 128 bins and involves no division by zero;
    analysing a buffer of fewer than two samples yields no bin and
    reports no voice. *)
Theorem analyzeSpectrum_on_buffers (cos sin sqrt : Q -> Q) (PI : Q) (this : t) :
  (Inv this ->
     length (result (analyzeSpectrum (simpleFFT cos sin sqrt PI) this (buffer this))).2
     = 128%nat
     /\ Forall (fun d => ~ (d == 0)%Q)
          (divisors (analyzeSpectrum (simpleFFT cos sin sqrt PI) this (buffer this))))
  /\ (forall short : list Q, (length short < 2)%nat ->
        result (analyzeSpectrum (simpleFFT cos sin sqrt PI) this short) = (false, [])).
Proof.
  split.
  - intros (Hlen & Hb & _). unfold slots in Hb.
    assert (H128 : length (simpleFFT cos sin sqrt PI (buffer this)) = 128%nat).
    { pose proof (simpleFFT_bins cos sin sqrt PI (buffer this)) as E.
      apply (f_equal length) in E. rewrite length_map, length_seq in E.
      rewrite E. unfold fftSize. rewrite Z.min_r by lia. reflexivity. }
    unfold analyzeSpectrum. cbv zeta.
    rewrite VoiceSpec.detectVoice_unfold. cbv zeta.
    assert (Hbin : ~ (binSizeDivisor (simpleFFT cos sin sqrt PI (buffer this)) == 0)%Q).
    { unfold binSizeDivisor. rewrite H128. discriminate. }
    destruct (Qeq_bool _ 0) eqn:E; unfold bind, ret, result, divisors; simpl.
    + split; [exact H128|]. by repeat constructor.
    + split; [exact H128|]. apply Qeq_bool_false in E. by repeat constructor.
  - intros short Hs.
    assert (E : simpleFFT cos sin sqrt PI short = []).
    { pose proof (simpleFFT_bins cos sin sqrt PI short) as E. rewrite E.
      assert (fftSize short / 2 = 0) as ->; [|done].
      apply Z.div_small. unfold fftSize. lia. }
    unfold analyzeSpectrum. cbv zeta. rewrite E. reflexivity.
Qed.

Lemma analyzeSpectrum_on_buffers_witness :
  length (result (analyzeSpectrum (simpleFFT (fun _ => 1%Q) (fun _ => 0%Q) (fun x => x) 3)
                    constructor (buffer constructor))).2 = 128%nat
  /\ result (analyzeSpectrum (simpleFFT (fun _ => 1%Q) (fun _ => 0%Q) (fun x => x) 3)
               constructor [1 # 2]%Q) = (false, []).
Proof.
  destruct (analyzeSpectrum_on_buffers (fun _ => 1%Q) (fun _ => 0%Q) (fun x => x) 3
              constructor) as [H1 H2].
  split.
  - exact (proj1 (H1 AudioProcessorSpec.Inv_constructor)).
  - apply H2. simpl. lia.
Defined.

End SpectrumSpec.

(** ** Platforms, badges and the popup's toggle *)

Module PlatformSpec.
Import VoiceManagementUI Platform.

Lemma detectors_agree (url : jsstring) :
  (PopupController.isValidStreamingPlatform url = true
   <-> BackgroundService.detectPlatform url <> None)
  /\ (PopupController.isValidStreamingPlatform url = true
      <-> detectPlatform url <> "unknown")
  /\ BackgroundService.detectPlatform url = lookupKey (detectPlatform url) displayNames.
Proof.
  unfold PopupController.isValidStreamingPlatform, BackgroundService.detectPlatform,
    detectPlatform, PopupController.supportedPlatforms, BackgroundService.platforms.
  cbn [existsb List.find fst snd].
  destruct (includes url (units "netflix.com")); [by repeat split|].
  destruct (includes url (units "youtube.com")); [by repeat split|].
  destruct (includes url (units "crunchyroll.com")); [by repeat split|].
  destruct (includes url (units "hulu.com")); [by repeat split|].
  destruct (includes url (units "disneyplus.com")); [by repeat split|].
  destruct (includes url (units "amazon.com")); [by repeat split|].
  destruct (includes url (units "funimation.com")); [by repeat split|].
  destruct (includes url (units "hbo.com")); [by repeat split|].
  destruct (includes url (units "twitch.tv")); by repeat split.
Qed.

(** X12.  The popup, the background worker and the content script agree
    on what a supported platform is: for every string, the popup accepts
    it exactly when the background worker names a platform for it, and
    exactly when the content script finds a platform other than
    "unknown"; and the name and the key they find belong to the same
    platform, the first of the nine domains, in the order of the lists,
    that the string contains. *)
Theorem platform_detection_agrees (url : jsstring) :
  (PopupController.isValidStreamingPlatform url = true
   <-> BackgroundService.detectPlatform url <> None)
  /\ (PopupController.isValidStreamingPlatform url = true
      <-> detectPlatform url <> "unknown")
  /\ BackgroundService.detectPlatform url = lookupKey (detectPlatform url) displayNames.
Proof. apply detectors_agree. Qed.

Lemma platform_detection_agrees_witness :
  PopupController.isValidStreamingPlatform (units "https://www.youtube.com/watch") = true
  /\ detectPlatform (units "www.youtube.com") <> "unknown".
Proof.
  split.
  - apply (proj2 (proj1 (platform_detection_agrees (units "https://www.youtube.com/watch")))).
    discriminate.
  - apply (proj1 (proj1 (proj2 (platform_detection_agrees (units "www.youtube.com"))))).
    reflexivity.
Defined.

Lemma startsWith_spec (s pattern : jsstring) :
  startsWith s pattern = true <-> exists post, s = pattern ++ post.
Proof.
  revert s. induction pattern as [|a pattern IH]; intros s; simpl.
  - split; [intros _; by exists s|done].
  - destruct s as [|b s]; [split; [done|intros [post H]; done]|].
    rewrite andb_true_iff, N.eqb_eq, IH. split.
    + intros [-> [post ->]]. by exists post.
    + intros [post H]. inversion H; subst. split; [done|by exists post].
Qed.

Lemma includes_spec (s pattern : jsstring) :
  includes s pattern = true <-> exists pre post, s = pre ++ pattern ++ post.
Proof.
  induction s as [|c s IH]; simpl; rewrite orb_true_iff, startsWith_spec.
  - split.
    + intros [[post H]|H]; [|done]. by exists [], post.
    + intros (pre & post & H). left. destruct pre; [by exists post|done].
  - rewrite IH. split.
    + intros [[post H]|(pre & post & H)].
      * by exists [], post.
      * exists (c :: pre), post. by rewrite H.
    + intros (pre & post & H). destruct pre as [|c' pre].
      * left. by exists post.
      * right. inversion H; subst. by exists pre, post.
Qed.

(** X13.  A tab counts as a supported streaming platform exactly when one
    of the nine domains occurs somewhere in its URL, as a substring at any
    position: in the host, the path or the query alike. *)
Theorem supported_means_substring (url : jsstring) :
  PopupController.isValidStreamingPlatform url = true
  <-> exists domain pre post,
        In domain PopupController.supportedPlatforms
        /\ url = pre ++ units domain ++ post.
Proof.
  unfold PopupController.isValidStreamingPlatform. rewrite existsb_exists. split.
  - intros (domain & Hin & Hinc). apply includes_spec in Hinc as (pre & post & H).
    by exists domain, pre, post.
  - intros (domain & pre & post & Hin & H). exists domain. split; [done|].
    apply includes_spec. by exists pre, post.
Qed.

Lemma supported_means_substring_witness :
  PopupController.isValidStreamingPlatform
    (units "https://example.org/?next=" ++ units "hulu.com" ++ units "/x") = true.
Proof.
  apply (proj2 (supported_means_substring _)).
  exists "hulu.com", (units "https://example.org/?next="), (units "/x").
  split; [|reflexivity]. simpl. tauto.
Defined.

End PlatformSpec.

Module BadgeSpec.
Import VoiceManagementUI Platform BackgroundService.

(** X14.  The badge reads "ON" for the status "active" and for no other,
    and "!" for "error" and for no other; a status that is neither one of
    the four configured ones nor a name inherited from Object.prototype
    gets the badge of "unsupported", grey and without text.  After a tab
    has finished loading a non-empty URL, the status passed on is "ready"
    when the URL is of a supported platform and "unsupported" when not;
    otherwise the badge is not touched. *)
Theorem badge_statuses (status : string) :
  (text (updateBadge status) = Some "ON" <-> status = "active")
  /\ (text (updateBadge status) = Some "!" <-> status = "error")
  /\ (isInherited status = false ->
      ~ In status ["ready"; "active"; "error"] ->
      updateBadge status = {| text := Some ""; color := Some "#9E9E9E" |})
  /\ (forall (tabStatus : option string) (url : option jsstring),
        handleTabUpdate tabStatus url
        = match tabStatus, url with
          | Some "complete", Some (c :: rest) =>
              if PopupController.isValidStreamingPlatform (c :: rest)
              then Some "ready" else Some "unsupported"
          | _, _ => None
          end).
Proof.
  split; [|split; [|split]].
  - unfold updateBadge, lookupKey, badgeConfig. cbn [List.find fst snd].
    destruct (String.eqb_spec "ready" status) as [<-|H1]; [done|].
    destruct (String.eqb_spec "active" status) as [<-|H2]; [done|].
    destruct (String.eqb_spec "error" status) as [<-|H3]; [done|].
    destruct (String.eqb_spec "unsupported" status) as [<-|H4]; [done|].
    simpl. destruct (isInherited status); simpl; split; done.
  - unfold updateBadge, lookupKey, badgeConfig. cbn [List.find fst snd].
    destruct (String.eqb_spec "ready" status) as [<-|H1]; [done|].
    destruct (String.eqb_spec "active" status) as [<-|H2]; [done|].
    destruct (String.eqb_spec "error" status) as [<-|H3]; [done|].
    destruct (String.eqb_spec "unsupported" status) as [<-|H4]; [done|].
    simpl. destruct (isInherited status); simpl; split; done.
  - intros Hi Hn. unfold updateBadge, lookupKey, badgeConfig. cbn [List.find fst snd].
    destruct (String.eqb_spec "ready" status) as [<-|H1]; [simpl in Hn; tauto|].
    destruct (String.eqb_spec "active" status) as [<-|H2]; [simpl in Hn; tauto|].
    destruct (String.eqb_spec "error" status) as [<-|H3]; [simpl in Hn; tauto|].
    destruct (String.eqb_spec "unsupported" status) as [<-|H4]; [done|].
    simpl. by rewrite Hi.
  - intros tabStatus url. unfold handleTabUpdate.
    destruct tabStatus as [tabStatus|]; [|done].
    destruct url as [url|]; [|by repeat case_match].
    destruct (String.eqb_spec tabStatus "complete") as [->|Hne].
    + destruct url as [|c rest]; [done|]. simpl truthy. cbn [andb].
      destruct (PlatformSpec.detectors_agree (c :: rest)) as ([H1 H2] & _).
      destruct (PopupController.isValidStreamingPlatform (c :: rest)) eqn:E.
      * destruct (detectPlatform (c :: rest)); [done|]. by destruct (H1 eq_refl).
      * destruct (detectPlatform (c :: rest)) eqn:E'; [|done].
        assert (false = true); [|done]. apply H2. done.
    + simpl. repeat case_match; try done; subst; done.
Qed.

Lemma badge_statuses_witness :
  updateBadge "loading" = {| text := Some ""; color := Some "#9E9E9E" |}
  /\ text (updateBadge "active") = Some "ON".
Proof.
  split.
  - apply (proj1 (proj2 (proj2 (badge_statuses "loading")))); [reflexivity|].
    simpl. intros [H|[H|[H|H]]]; done.
  - by apply (proj2 (proj1 (badge_statuses "active"))).
Defined.

End BadgeSpec.

Module ToggleSpec.
Import VoiceManagementUI Platform PopupController.

(** X15.  A press of the popup's toggle sends a message only to a tab
    whose URL is of a supported platform, and the message is the opposite
    of the popup's state: start_dubbing from inactive, stop_dubbing from
    active.  What is saved and shown is the popup's new state, and only
    when the message was delivered.  When the delivery fails on a
    supported page the popup reports an error, yet its own [isActive] has
    changed and stays changed, unsaved and not shown; in every other case
    with an error [isActive] is what it was. *)
Theorem toggleDubbing_effects (tab : option Tab) (delivered isActive : bool) :
  let r := toggleDubbing tab delivered isActive in
  let supported :=
    exists tabId url, tab = Some {| id := tabId; url := Some url |}
                      /\ isValidStreamingPlatform url = true in
  (forall tabId action, In (SendMessage tabId action) r.2 ->
     supported
     /\ action = (if isActive then "stop_dubbing" else "start_dubbing")
     /\ r.1 = negb isActive)
  /\ (forall b, In (SaveSettings b) r.2 \/ In (UpdateUI b) r.2 ->
       b = r.1 /\ delivered = true)
  /\ ((exists message, In (ShowError message) r.2) <-> ~ In (UpdateUI r.1) r.2)
  /\ ((exists message, In (ShowError message) r.2) /\ r.1 <> isActive
      <-> supported /\ delivered = false).
Proof.
  intros r supported. subst r supported. unfold toggleDubbing.
  destruct tab as [[tabId [url|]]|].
  - destruct (isValidStreamingPlatform url) eqn:Ev; simpl.
    + destruct delivered; simpl.
      * split; [|split; [|split]].
        -- intros t a [H|[H|[H|[]]]]; inversion H; subst.
           split; [by exists t, url|]. split; [by destruct isActive|done].
        -- intros b [[H|[H|[H|[]]]]|[H|[H|[H|[]]]]]; inversion H; by subst.
        -- split; [intros [m [H|[H|[H|[]]]]]; done|]. intros H. exfalso. apply H. tauto.
        -- split; [intros [[m [H|[H|[H|[]]]]] _]; done|intros [_ H]; done].
      * split; [|split; [|split]].
        -- intros t a [H|[H|[]]]; inversion H; subst.
           split; [by exists t, url|]. split; [by destruct isActive|done].
        -- intros b [[H|[H|[]]]|[H|[H|[]]]]; inversion H.
        -- split; [intros _ [H|[H|[]]]; done|]. intros _. eexists. right. by left.
        -- split; [intros _; split; [by exists tabId, url|done]|].
           intros _. split; [eexists; right; by left|by destruct isActive].
    + split; [|split; [|split]].
      * intros t a [H|[]]. inversion H.
      * intros b [[H|[]]|[H|[]]]; inversion H.
      * split; [intros _ [H|[]]; done|]. intros _. eexists. by left.
      * split; [intros [_ H]; done|].
        intros [(t & u & E & Hv) _]. inversion E; subst. congruence.
  - simpl. split; [|split; [|split]].
    + intros t a [H|[]]. inversion H.
    + intros b [[H|[]]|[H|[]]]; inversion H.
    + split; [intros _ [H|[]]; done|]. intros _. eexists. by left.
    + split; [intros [_ H]; done|]. intros [(t & u & E & Hv) _]. inversion E.
  - simpl. split; [|split; [|split]].
    + intros t a [H|[]]. inversion H.
    + intros b [[H|[]]|[H|[]]]; inversion H.
    + split; [intros _ [H|[]]; done|]. intros _. eexists. by left.
    + split; [intros [_ H]; done|]. intros [(t & u & E & Hv) _]. inversion E.
Qed.

Lemma toggleDubbing_effects_witness :
  (toggleDubbing (Some {| id := 7; url := Some (units "https://www.twitch.tv/x") |})
     false false).1 = true.
Proof.
  destruct (toggleDubbing_effects
              (Some {| id := 7; url := Some (units "https://www.twitch.tv/x") |})
              false false) as (H1 & _).
  exact (proj2 (proj2 (H1 7 "start_dubbing" (or_introl eq_refl)))).
Defined.

End ToggleSpec.

(** ** The server URL *)

Module ContentSpec.
Import VoiceManagementUI Platform ContentScript.

Lemma startsWith_app (s pattern : jsstring) :
  startsWith (pattern ++ s) pattern = true.
Proof. apply PlatformSpec.startsWith_spec. by exists s. Qed.

(** A prefix of a string is a prefix of any part of it that is long
    enough. *)
Lemma startsWith_shorten (x y pattern : jsstring) :
  (length pattern <= length x)%nat ->
  startsWith (x ++ y) pattern = true -> startsWith x pattern = true.
Proof.
  revert x. induction pattern as [|a pattern IH]; intros x Hl H; [done|].
  destruct x as [|b x]; simpl in *; [lia|].
  apply andb_true_iff in H as [-> H]. simpl. apply IH; [lia|done].
Qed.

Lemma replace_absent (s pattern replacement : jsstring) :
  includes s pattern = false -> replace s pattern replacement = s.
Proof.
  induction s as [|c s IH]; simpl; intros H; apply orb_false_iff in H as [H1 H2];
    rewrite H1; [done|]. by rewrite IH.
Qed.

Lemma replace_first (pre post pattern replacement : jsstring) :
  includes (pre ++ removelast pattern) pattern = false ->
  replace (pre ++ pattern ++ post) pattern replacement = pre ++ replacement ++ post.
Proof.
  induction pre as [|c pre IH]; intros H.
  - simpl app. destruct (pattern ++ post) as [|c s] eqn:E; simpl;
      rewrite <- E, startsWith_app, drop_app_length; done.
  - simpl in H. apply orb_false_iff in H as [H1 H2].
    simpl. destruct (startsWith (c :: pre ++ pattern ++ post) pattern) eqn:E.
    + exfalso.
      assert (Hp : pattern <> []) by (intros ->; done).
      pose proof (app_removelast_last 0%N Hp) as Hlast.
      set (l := removelast pattern) in *. set (x := List.last pattern 0%N) in *.
      assert (Heq : (c :: pre ++ l) ++ [x] ++ post = c :: pre ++ pattern ++ post).
      { simpl. f_equal. rewrite <- app_assoc. f_equal.
        transitivity ((l ++ [x]) ++ post); [by rewrite <- app_assoc|by rewrite <- Hlast]. }
      rewrite <- Heq in E. apply startsWith_shorten in E; [congruence|].
      simpl. rewrite length_app.
      apply (f_equal length) in Hlast. rewrite length_app in Hlast. simpl in Hlast. lia.
    + by rewrite IH.
Qed.

(** X16.  The socket URL is the server URL with its first "http" turned
    into "ws", followed by /ws/, the connection id, a slash and the
    session id: http://host becomes ws://host and https://host becomes
    wss://host, a URL without "http" is taken as it is, and only the first
    occurrence is touched, wherever it stands. *)
Theorem wsUrl_scheme (connectionId sessionId : jsstring) :
  let tail := units "/ws/" ++ connectionId ++ units "/" ++ sessionId in
  (forall serverUrl, includes serverUrl (units "http") = false ->
     wsUrl serverUrl connectionId sessionId = serverUrl ++ tail)
  /\ (forall rest,
        wsUrl (units "http" ++ rest) connectionId sessionId = units "ws" ++ rest ++ tail)
  /\ (forall pre rest, includes (pre ++ units "htt") (units "http") = false ->
        wsUrl (pre ++ units "http" ++ rest) connectionId sessionId
        = pre ++ units "ws" ++ rest ++ tail).
Proof.
  intros tail. unfold wsUrl. split; [|split].
  - intros serverUrl H. by rewrite replace_absent.
  - intros rest.
    pose proof (replace_first [] rest (units "http") (units "ws") eq_refl) as H.
    rewrite !app_nil_l in H. rewrite H. by rewrite <- !app_assoc.
  - intros pre rest H. rewrite (replace_first pre rest) by exact H.
    by rewrite <- !app_assoc.
Qed.

Lemma wsUrl_scheme_witness :
  wsUrl (units "ws://localhost:8000") (units "c") (units "s")
  = units "ws://localhost:8000" ++ units "/ws/" ++ units "c" ++ units "/" ++ units "s"
  /\ wsUrl (units "ws://" ++ units "http" ++ units "bin.org") (units "c") (units "s")
     = units "ws://" ++ units "ws" ++ units "bin.org"
       ++ units "/ws/" ++ units "c" ++ units "/" ++ units "s".
Proof.
  destruct (wsUrl_scheme (units "c") (units "s")) as (H1 & _ & H3).
  split.
  - apply H1. reflexivity.
  - apply H3. reflexivity.
Defined.

End ContentSpec.

Module FormsSpec.
Import VoiceManagementUI VoiceManagementForms.

Ltac members :=
  repeat match goal with
         | H : _ \/ _ |- _ => destruct H
         | H : _ /\ _ |- _ => destruct H
         | H : exists _, _ |- _ => destruct H
         | H : False |- _ => destruct H
         end;
  try discriminate.

Lemma trimStart_split (s : jsstring) :
  exists a, s = a ++ trimStart s /\ forallb isWhiteSpace a = true.
Proof.
  induction s as [|c s [a [IH1 IH2]]]; simpl.
  - by exists [].
  - destruct (isWhiteSpace c) eqn:E.
    + exists (c :: a). simpl. rewrite E, IH2. split; [by rewrite <- IH1|done].
    + by exists [].
Qed.

Lemma trimStart_head (s : jsstring) (c : N) :
  head (trimStart s) = Some c -> isWhiteSpace c = false.
Proof.
  induction s as [|d s IH]; simpl; [done|].
  destruct (isWhiteSpace d) eqn:E; [done|]. simpl. by intros [= <-].
Qed.

Lemma trimStart_nil (s : jsstring) :
  trimStart s = [] <-> forallb isWhiteSpace s = true.
Proof.
  induction s as [|c s IH]; simpl; [done|].
  destruct (isWhiteSpace c); simpl; [done|]. split; done.
Qed.

Lemma trimStart_fixed (s : jsstring) :
  (forall c, head s = Some c -> isWhiteSpace c = false) -> trimStart s = s.
Proof. destruct s as [|c s]; simpl; [done|]. intros H. by rewrite (H c). Qed.

Lemma forallb_rev (s : jsstring) :
  forallb isWhiteSpace (rev s) = forallb isWhiteSpace s.
Proof.
  induction s as [|c s IH]; simpl; [done|].
  rewrite forallb_app, IH. simpl. by rewrite andb_true_r, andb_comm.
Qed.

Lemma head_rev (s : jsstring) : head (rev s) = last s.
Proof.
  induction s as [|c s IH]; [done|].
  destruct s as [|d s]; [done|].
  change (last (c :: d :: s)) with (last (d :: s)). rewrite <- IH.
  change (rev (c :: d :: s)) with (rev (d :: s) ++ [c]).
  destruct (rev (d :: s)) as [|e t] eqn:E; [|done].
  apply (f_equal length) in E. rewrite length_rev in E. done.
Qed.

Lemma trimEnd_split (s : jsstring) :
  exists b, s = trimEnd s ++ b /\ forallb isWhiteSpace b = true.
Proof.
  unfold trimEnd. destruct (trimStart_split (rev s)) as (a & H1 & H2).
  exists (rev a). rewrite forallb_rev. split; [|done].
  rewrite <- rev_app_distr, <- H1. by rewrite rev_involutive.
Qed.

Lemma trimEnd_last (s : jsstring) (c : N) :
  last (trimEnd s) = Some c -> isWhiteSpace c = false.
Proof.
  unfold trimEnd. rewrite <- head_rev, rev_involutive. apply trimStart_head.
Qed.

Lemma trimEnd_head (s : jsstring) (c : N) :
  isWhiteSpace c = false -> head s = Some c -> head (trimEnd s) = Some c.
Proof.
  intros Hc Hs. destruct (trimEnd_split s) as (b & H1 & H2).
  destruct (trimEnd s) as [|d t] eqn:E.
  - simpl in H1. subst b. destruct s as [|d s]; [done|].
    simpl in Hs, H2. injection Hs as ->. by rewrite Hc in H2.
  - rewrite H1 in Hs. exact Hs.
Qed.

(** What [trim] does: white space goes from both ends and nothing else. *)
Lemma trim_split (s : jsstring) :
  exists a b,
    s = a ++ trim s ++ b
    /\ forallb isWhiteSpace a = true /\ forallb isWhiteSpace b = true
    /\ (forall c, head (trim s) = Some c -> isWhiteSpace c = false)
    /\ (forall c, last (trim s) = Some c -> isWhiteSpace c = false).
Proof.
  unfold trim.
  destruct (trimStart_split s) as (a & Ha1 & Ha2).
  destruct (trimEnd_split (trimStart s)) as (b & Hb1 & Hb2).
  exists a, b. split; [by rewrite <- Hb1|]. split; [done|]. split; [done|].
  split; [|apply trimEnd_last].
  intros c Hc. destruct (trimStart s) as [|d t] eqn:E; [done|].
  assert (Hd : isWhiteSpace d = false).
  { apply (trimStart_head s). by rewrite E. }
  rewrite (trimEnd_head (d :: t) d Hd eq_refl) in Hc. by injection Hc as <-.
Qed.

Lemma trim_blank (s : jsstring) :
  truthy (trim s) = negb (forallb isWhiteSpace s).
Proof.
  destruct (trim_split s) as (a & b & H1 & H2 & H3 & H4 & _).
  destruct (trim s) as [|c t] eqn:E; simpl.
  - rewrite H1 at 1. simpl. by rewrite forallb_app, H2, H3.
  - rewrite H1. rewrite forallb_app. simpl. rewrite (H4 c eq_refl).
    by rewrite andb_false_r.
Qed.

Section WithFile.
Context {File : Type}.
Implicit Types (f : Form File).

(** X19.  The voice form takes a name for missing exactly when it is
    empty or made of white space only: then, and only then, the one
    effect is the alert that asks for a voice name.  The name that goes
    into a request is the entered one without the white space at its two
    ends: it neither starts nor ends with white space. *)
Theorem blank_voice_name_rejected f :
  (submitCreateVoiceForm f = [VoiceManagementUI.Alert "Please enter a voice name."]
   <-> forallb isWhiteSpace (nameInput f) = true)
  /\ exists a b,
       nameInput f = a ++ trim (nameInput f) ++ b
       /\ forallb isWhiteSpace a = true /\ forallb isWhiteSpace b = true
       /\ (forall c, head (trim (nameInput f)) = Some c -> isWhiteSpace c = false)
       /\ (forall c, last (trim (nameInput f)) = Some c -> isWhiteSpace c = false).
Proof.
  split; [|apply trim_split].
  unfold submitCreateVoiceForm. rewrite trim_blank, negb_involutive.
  destruct (forallb isWhiteSpace (nameInput f)); [done|].
  split; [|done]. repeat case_match; intros [=].
Qed.

(** X20.  The body of the request of the voice form, entry by entry: the
    trimmed name, the speaker, the trimmed description unless it is empty
    or white space only, the actor unless none is selected, and then the
    chosen files, each under [audio_files], in the order of the input. *)
Theorem voice_request_entries f :
  buildFormData f
  = [("name", Text (trim (nameInput f))); ("speaker_id", Text (speakerSelect f))]
    ++ (if forallb isWhiteSpace (descriptionInput f) then []
        else [("description", Text (trim (descriptionInput f)))])
    ++ (if isEmptyString (actorSelect f) then []
        else [("actor_id", Text (actorSelect f))])
    ++ map (fun x => ("audio_files", Blob x)) (samplesInput f).
Proof.
  unfold buildFormData. rewrite FormSpec.appendFiles_app, trim_blank.
  unfold append.
  destruct (forallb isWhiteSpace (descriptionInput f));
    destruct (actorSelect f); simpl; by rewrite <- ?app_assoc.
Qed.

End WithFile.

Lemma blank_voice_name_rejected_witness :
  submitCreateVoiceForm
    {| nameInput := units "  "; descriptionInput := []; speakerSelect := units "s";
       actorSelect := []; samplesInput := [tt] |}
  = [VoiceManagementUI.Alert "Please enter a voice name."].
Proof.
  apply (blank_voice_name_rejected
           {| nameInput := units "  "; descriptionInput := []; speakerSelect := units "s";
              actorSelect := []; samplesInput := [tt] |}).
  reflexivity.
Defined.

(** X21.  The actor form sends its request exactly when the name is not
    empty and not white space only.  The request comes first and carries
    the trimmed name and the values of the checked speakers, in the order
    of the list.  Whatever happens, the user gets exactly one alert; the
    modal is hidden and the actors are loaded again exactly when a request
    was sent and the answer says success. *)
Theorem actor_form_effects (nameInput : jsstring) (checkboxes : list Checkbox)
    (reply : Reply) :
  let effects := submitCreateActorForm nameInput checkboxes reply in
  let sent := negb (forallb isWhiteSpace nameInput) in
  length (List.filter isAlert effects) = 1%nat
  /\ (sent = false -> effects = [Alert (units "Please enter an actor name.")])
  /\ (sent = true ->
        exists rest,
          effects
          = Fetch "/api/voice-management/actors" "POST" "application/json"
                  {| name := trim nameInput;
                     speaker_ids := map value (List.filter checked checkboxes) |}
            :: rest
          /\ forallb (fun e => negb (isFetch e)) rest = true)
  /\ (In HideModal effects <-> sent = true /\ exists m, reply = Data true m)
  /\ (In LoadActorProfiles effects <-> In HideModal effects).
Proof.
  intros effects sent. subst effects sent. unfold submitCreateActorForm.
  rewrite trim_blank, negb_involutive.
  destruct (forallb isWhiteSpace nameInput); [|destruct reply as [|[|] m]];
    cbn [negb In length List.filter isAlert isFetch forallb app];
    (split; [done|]); (split; [done|]); (split; [first [done | by eexists]|]);
    split; split; intros H; members;
    first [done | by (split; [done|eexists]) | by auto 6].
Qed.

Lemma actor_form_effects_witness :
  exists rest,
    submitCreateActorForm (units " Ann ")
      [ {| value := units "s1"; checked := true |};
        {| value := units "s2"; checked := false |};
        {| value := units "s3"; checked := true |} ]
      (Data false None)
    = Fetch "/api/voice-management/actors" "POST" "application/json"
            {| name := units "Ann"; speaker_ids := [units "s1"; units "s3"] |}
      :: rest.
Proof.
  destruct (actor_form_effects (units " Ann ")
              [ {| value := units "s1"; checked := true |};
                {| value := units "s2"; checked := false |};
                {| value := units "s3"; checked := true |} ]
              (Data false None)) as (_ & _ & H & _).
  destruct (H eq_refl) as (rest & Hrest & _).
  exists rest. exact Hrest.
Defined.

Lemma after_S (n : nat) : after (S n) = elapse (after n).
Proof. reflexivity. Qed.

Lemma after_done (k : nat) : after (20 + k) = after 20.
Proof.
  induction k as [|k IH]; [by rewrite Nat.add_0_r|].
  rewrite Nat.add_succ_r, after_S, IH. by vm_compute.
Qed.

(** X22.  The simulated progress of a clone.  After [n] periods of 300 ms
    the counter and the width of the bar stand at 5 n percent, and at 100
    from the twentieth period on: the bar never goes beyond 100 percent.
    The interval is cleared, and the closing of the modal is scheduled, at
    the twentieth period and not before.  The status text tells of the
    upload for the first five periods, of the creation up to the
    thirteenth, of the finalizing up to the nineteenth and of the
    completion from then on. *)
Theorem clone_progress (n : nat) :
  let s := after n in
  progress s = 5 * Z.min (Z.of_nat n) 20
  /\ width s = progress s
  /\ 0 <= width s <= 100
  /\ (interval s = true <-> (n < 20)%nat)
  /\ (closing s = true <-> (20 <= n)%nat)
  /\ statusText s
     = (if (n =? 0)%nat then "Starting voice cloning..."
        else if (n <? 6)%nat then "Uploading and analyzing audio samples..."
        else if (n <? 14)%nat then "Creating voice clone..."
        else if (n <? 20)%nat then "Finalizing voice model..."
        else "Voice cloning completed successfully!")%string.
Proof.
  intros s. subst s.
  destruct (Nat.lt_ge_cases n 20) as [H|H].
  - do 20 (destruct n as [|n];
           [vm_compute; repeat split; first [done | lia | intros; lia]|]).
    lia.
  - replace n with (20 + (n - 20))%nat by lia. rewrite after_done.
    replace (Z.min (Z.of_nat (20 + (n - 20))) 20) with 20 by lia.
    assert (E0 : (20 + (n - 20) =? 0)%nat = false) by (apply Nat.eqb_neq; lia).
    assert (E1 : (20 + (n - 20) <? 6)%nat = false) by (apply Nat.ltb_ge; lia).
    assert (E2 : (20 + (n - 20) <? 14)%nat = false) by (apply Nat.ltb_ge; lia).
    assert (E3 : (20 + (n - 20) <? 20)%nat = false) by (apply Nat.ltb_ge; lia).
    rewrite E0, E1, E2, E3.
    vm_compute after. simpl. repeat split; first [done | lia | intros; lia].
Qed.

End FormsSpec.
